(** * CU Analysis App: the sheet normalisation and aggregation pipeline

    A shallow embedding of [app.py].  The script is a straight-line pandas
    program; every pandas, [str], [float] and [itertools] operation it
    calls is written out here as a function on lists, and the stages of
    the script are the compositions of those functions in source order.

    Conventions.
    - A Python [str] is a list of Unicode code points.
    - A number is an IEEE 754 binary64 value ([spec_float] with
      precision 53 and maximal exponent 1024).  [NaN] is the missing marker
      of pandas.
    - A raised exception is a value [Raise e]; [try]/[except] is a match. *)

From Stdlib Require Import Strings.String Strings.Ascii.
From Stdlib Require Import List ZArith NArith Bool Lia.
From Stdlib Require Import Floats.SpecFloat.
From Stdlib Require Import Sorting.Sorted Sorting.Permutation.
Import ListNotations.

Set Implicit Arguments.

(** ** Exceptions *)

Inductive exn :=
| KeyError | IndexError | ValueError | TypeError | InvalidIndexError.

Inductive result (A : Type) :=
| Ok (a : A)
| Raise (e : exn).
Arguments Ok {A} a.
Arguments Raise {A} e.

Definition bind {A B} (r : result A) (k : A -> result B) : result B :=
  match r with
  | Ok a => k a
  | Raise e => Raise e
  end.

Notation "x <- r ;; k" := (bind r (fun x => k))
  (at level 61, r at next level, right associativity).

Fixpoint mapM {A B} (f : A -> result B) (l : list A) : result (list B) :=
  match l with
  | [] => Ok []
  | a :: l' => b <- f a ;; bs <- mapM f l' ;; Ok (b :: bs)
  end.

(** ** Python strings *)

Module PyStr.

Definition pystr := list N.

(** A literal whose characters are all below U+0100. *)
Definition py (s : String.string) : pystr :=
  map N_of_ascii (String.list_ascii_of_string s).
Arguments py s%_string.

Definition eqb (s t : pystr) : bool :=
  if list_eq_dec N.eq_dec s t then true else false.

(** [str.isspace] on one code point, which is also the class [\s] of [re]
    on [str] patterns. *)
Definition is_space (c : N) : bool :=
  ((9 <=? c) && (c <=? 13) || (28 <=? c) && (c <=? 32)
   || (c =? 133) || (c =? 160) || (c =? 5760)
   || (8192 <=? c) && (c <=? 8202)
   || (c =? 8232) || (c =? 8233) || (c =? 8239) || (c =? 8287)
   || (c =? 12288))%N.

Fixpoint lstrip (s : pystr) : pystr :=
  match s with
  | c :: s' => if is_space c then lstrip s' else s
  | [] => []
  end.

Definition rstrip (s : pystr) : pystr := rev (lstrip (rev s)).

(** [s.strip()] *)
Definition strip (s : pystr) : pystr := rstrip (lstrip s).

(** [s.replace(c, '')] for a one-character [c]. *)
Definition remove_char (c : N) (s : pystr) : pystr :=
  filter (fun d => negb (d =? c)%N) s.

(** [s.count(c)] for a one-character [c]. *)
Definition count_char (c : N) (s : pystr) : nat :=
  length (filter (fun d => (d =? c)%N) s).

(** [s.split(c)] for a one-character separator [c]. *)
Fixpoint split_on (c : N) (s : pystr) : list pystr :=
  match s with
  | [] => [[]]
  | d :: s' =>
      if (d =? c)%N then [] :: split_on c s'
      else match split_on c s' with
           | w :: ws => (d :: w) :: ws
           | [] => [[d]]
           end
  end.

(** [re.sub(r'\s+', ' ', s)]: every maximal run of whitespace becomes one
    space.  [in_run] tells that the previous character was whitespace. *)
Fixpoint collapse_from (in_run : bool) (s : pystr) : pystr :=
  match s with
  | [] => []
  | c :: s' =>
      if is_space c
      then if in_run then collapse_from true s' else 32%N :: collapse_from true s'
      else c :: collapse_from false s'
  end.

Definition collapse_spaces (s : pystr) : pystr := collapse_from false s.

(** The first character, if any, is not whitespace. *)
Definition head_ok (s : pystr) : bool :=
  match s with
  | [] => true
  | c :: _ => negb (is_space c)
  end.

(** Lexicographic order on code points: the order of [str] under [<=]. *)
Fixpoint leb (s t : pystr) : bool :=
  match s, t with
  | [], _ => true
  | _ :: _, [] => false
  | c :: s', d :: t' => (c <? d)%N || ((c =? d)%N && leb s' t')
  end.

End PyStr.

Import PyStr.

(** The tables of the Unicode character database that [str.lower],
    [str.upper] and [float] consult.  They belong to the interpreter, not to
    the script, and are a parameter of the development. *)
Class UnicodeData := {
  to_lower : N -> list N;
  to_upper : N -> list N;
  decimal_digit : N -> option Z
}.

(** The tables restricted to ASCII; code points outside are caseless and
    are not digits. *)
Definition ascii_lower (c : N) : list N :=
  if ((65 <=? c) && (c <=? 90))%N then [(c + 32)%N] else [c].
Definition ascii_upper (c : N) : list N :=
  if ((97 <=? c) && (c <=? 122))%N then [(c - 32)%N] else [c].
Definition ascii_digit (c : N) : option Z :=
  if ((48 <=? c) && (c <=? 57))%N then Some (Z.of_N c - 48)%Z else None.

Definition ascii_tables : UnicodeData :=
  {| to_lower := ascii_lower; to_upper := ascii_upper;
     decimal_digit := ascii_digit |}.

(** What the development asks of the tables: whitespace has no case,
    lowercasing a character that is not whitespace gives at least one
    character and no whitespace, a lowercased character is left alone by
    lowercasing, and the decimal digits below U+0080 are the ten ASCII
    digits. *)
Class UnicodeLaws (U : UnicodeData) : Prop := {
  lower_space : forall c, is_space c = true -> to_lower c = [c];
  lower_nonspace : forall c, is_space c = false ->
    to_lower c <> [] /\ forall d, In d (to_lower c) -> is_space d = false;
  lower_stable : forall c d, In d (to_lower c) -> to_lower d = [d];
  ascii_digits : forall c, (c < 128)%N -> decimal_digit c = ascii_digit c
}.

(** [s.lower()] and [s.upper()], code point by code point.  The one rule of
    [str.lower] that looks at the neighbours of a character, the final form
    of the Greek capital sigma, is outside this model. *)
Definition lower {U : UnicodeData} (s : pystr) : pystr := flat_map to_lower s.
Definition upper {U : UnicodeData} (s : pystr) : pystr := flat_map to_upper s.

(** ** Binary64 numbers and [float(str)] *)

Module PyFloat.

Definition float := spec_float.

Definition prec : Z := 53.
Definition emax : Z := 1024.

Definition nan : float := S754_nan.
Definition zero : float := S754_zero false.

Definition is_nan (x : float) : bool :=
  match x with S754_nan => true | _ => false end.

Definition fadd : float -> float -> float := SFadd prec emax.
Definition fsub : float -> float -> float := SFsub prec emax.

(** [x == y] on floats: [NaN] equals nothing, [-0.0] equals [0.0]. *)
Definition feqb : float -> float -> bool := SFeqb.
Definition fleb : float -> float -> bool := SFleb.

(** The binary64 number nearest to [m * 2^e]. *)
Definition of_binary (m e : Z) : float := binary_normalize prec emax m e false.

(** The binary64 number nearest to [(-1)^neg * m * 10^e], ties to even:
    the value [float] gives to a decimal literal with digits [m] and decimal
    exponent [e]. *)
Definition of_decimal (neg : bool) (m e : Z) : float :=
  match m with
  | Z0 => S754_zero neg
  | Zpos _ =>
      if (0 <=? e)%Z
      then binary_normalize prec emax (cond_Zopp neg (m * 10 ^ e)) 0 false
      else
        let '(q, e2, loc) := SFdiv_core_binary prec emax m 0 (10 ^ (- e)) 0 in
        binary_round_aux prec emax neg q e2 loc
  | Zneg _ => S754_nan
  end.

Section Parse.
Context {U : UnicodeData}.

Definition underscore : N := 95.
Definition dot : N := 46.
Definition plus : N := 43.
Definition minus : N := 45.

(** The rest of a [digitpart] after its first digit: digits, each
    optionally preceded by one underscore.  Returns the digits read and
    the unread suffix. *)
Fixpoint digits_rest (s : pystr) : list Z * pystr :=
  match s with
  | [] => ([], [])
  | c :: s' =>
      match decimal_digit c with
      | Some d => let (ds, r) := digits_rest s' in (d :: ds, r)
      | None =>
          if (c =? underscore)%N
          then match s' with
               | c2 :: s2 =>
                   match decimal_digit c2 with
                   | Some d => let (ds, r) := digits_rest s2 in (d :: ds, r)
                   | None => ([], s)
                   end
               | [] => ([], s)
               end
          else ([], s)
      end
  end.

(** [digitpart ::= digit (["_"] digit)*] *)
Definition digitpart (s : pystr) : option (list Z * pystr) :=
  match s with
  | c :: s' =>
      match decimal_digit c with
      | Some d => let (ds, r) := digits_rest s' in Some (d :: ds, r)
      | None => None
      end
  | [] => None
  end.

Definition digits_value (ds : list Z) : Z :=
  fold_left (fun acc d => (10 * acc + d)%Z) ds 0%Z.

(** An optional sign; [true] is minus. *)
Definition sign (s : pystr) : bool * pystr :=
  match s with
  | c :: s' =>
      if (c =? minus)%N then (true, s')
      else if (c =? plus)%N then (false, s')
      else (false, s)
  | [] => (false, [])
  end.

(** [number ::= [digitpart] "." digitpart | digitpart ["."]]: the integer
    digits, the fraction digits and the unread suffix. *)
Definition number (s : pystr) : option (list Z * list Z * pystr) :=
  match digitpart s with
  | Some (ip, r) =>
      match r with
      | c :: r' =>
          if (c =? dot)%N
          then match digitpart r' with
               | Some (fp, r2) => Some (ip, fp, r2)
               | None => Some (ip, [], r')
               end
          else Some (ip, [], r)
      | [] => Some (ip, [], [])
      end
  | None =>
      match s with
      | c :: r' =>
          if (c =? dot)%N
          then match digitpart r' with
               | Some (fp, r2) => Some ([], fp, r2)
               | None => None
               end
          else None
      | [] => None
      end
  end.

(** [exponent ::= ("e" | "E") [sign] digitpart]; absent is exponent 0. *)
Definition exponent (s : pystr) : option (Z * pystr) :=
  match s with
  | c :: s' =>
      if ((c =? 101) || (c =? 69))%N
      then let (neg, r) := sign s' in
           match digitpart r with
           | Some (ds, r2) => Some (cond_Zopp neg (digits_value ds), r2)
           | None => None
           end
      else Some (0%Z, s)
  | [] => Some (0%Z, [])
  end.

(** ASCII case folding, as the parser of [inf] and [nan] applies it. *)
Definition fold_ascii (s : pystr) : pystr := flat_map ascii_lower s.

Definition absfloat (neg : bool) (s : pystr) : option float :=
  let w := fold_ascii s in
  if PyStr.eqb w (py "inf") || PyStr.eqb w (py "infinity")
  then Some (S754_infinity neg)
  else if PyStr.eqb w (py "nan") then Some S754_nan
  else
    match number s with
    | Some (ip, fp, r) =>
        match exponent r with
        | Some (e, []) =>
            Some (of_decimal neg (digits_value (ip ++ fp))
                    (e - Z.of_nat (List.length fp)))
        | _ => None
        end
    | None => None
    end.

(** [float(s)] for a [str] argument: [None] stands for the [ValueError]
    "could not convert string to float". *)
Definition float_of_str (s : pystr) : option float :=
  let (neg, r) := sign (strip s) in absfloat neg r.

End Parse.

End PyFloat.

Import PyFloat.

(** ** Cells and series *)

(** A cell of a sheet is text or a number; the empty cell is [NaN]. *)
Inductive cell :=
| CStr (s : pystr)
| CNum (x : float).

Definition missing : cell := CNum nan.

(** [pd.isna] *)
Definition isna (c : cell) : bool :=
  match c with
  | CNum x => is_nan x
  | CStr _ => false
  end.

Definition is_str (c : cell) : bool :=
  match c with CStr _ => true | CNum _ => false end.

(** Equality of labels and of group keys: equal text, or equal numbers.
    Two [NaN] labels are the same label. *)
Definition cell_eqb (a b : cell) : bool :=
  match a, b with
  | CStr s, CStr t => PyStr.eqb s t
  | CNum x, CNum y => feqb x y || (is_nan x && is_nan y)
  | _, _ => false
  end.

(** The order in which pandas sorts the distinct keys of a grouping:
    numbers before text, numbers by value, text by code points. *)
Definition cell_leb (a b : cell) : bool :=
  match a, b with
  | CNum x, CNum y => fleb x y
  | CNum _, CStr _ => true
  | CStr _, CNum _ => false
  | CStr s, CStr t => PyStr.leb s t
  end.

(** The text of a cell after [astype(str)].  Text is itself.  The text of a
    number is its [repr], kept symbolic: the [repr] of a binary64 number is
    not empty, holds no comma, no no-break space and no whitespace, holds at
    most one dot, and [float] reads it back as the same number ([nan] for
    [NaN]). *)
Inductive text :=
| Lit (s : pystr)
| Repr (x : float).

Definition astype_str (c : cell) : text :=
  match c with
  | CStr s => Lit s
  | CNum x => Repr x
  end.

Definition comma : N := 44.
Definition nbsp : N := 160.

(** [.str.replace(c, '', regex=False)] on one element, for [c] a comma or
    a no-break space. *)
Definition str_remove (c : N) (t : text) : text :=
  match t with
  | Lit s => Lit (remove_char c s)
  | Repr x => Repr x
  end.

(** [.str.strip()] on one element *)
Definition str_strip (t : text) : text :=
  match t with
  | Lit s => Lit (strip s)
  | Repr x => Repr x
  end.

(** [.replace('', v)] on one element: a whole-value replacement. *)
Definition replace_empty (v : pystr) (t : text) : text :=
  match t with
  | Lit [] => Lit v
  | _ => t
  end.

(** [float(t)]: what [astype(float)] applies to each element. *)
Definition text_to_float {U : UnicodeData} (t : text) : result float :=
  match t with
  | Lit s =>
      match float_of_str s with
      | Some x => Ok x
      | None => Raise ValueError
      end
  | Repr x => Ok x
  end.

(** [t == ''] *)
Definition text_is_empty (t : text) : bool :=
  match t with
  | Lit [] => true
  | _ => false
  end.

(** [t.count('.') == 2] *)
Definition has_two_dots (t : text) : bool :=
  match t with
  | Lit s => Nat.eqb (count_char dot s) 2
  | Repr _ => false
  end.

(** The chain of lines 70-78 on one column:
    [.astype(str).str.replace(',', '').str.replace('\xa0', '').str.strip()
     .replace('', '0').astype(float)].  [astype(float)] raises on the first
    element that is not a number, and then no column is produced. *)
Definition coerce_column {U : UnicodeData} (col : list cell)
  : result (list float) :=
  mapM text_to_float
    (map (replace_empty (py "0"))
       (map str_strip
          (map (str_remove nbsp)
             (map (str_remove comma)
                (map astype_str col))))).

(** [.ffill()]: [last] is the last valid value seen so far. *)
Fixpoint ffill_from (last : cell) (col : list cell) : list cell :=
  match col with
  | [] => []
  | c :: col' =>
      if isna c then last :: ffill_from last col'
      else c :: ffill_from c col'
  end.

Definition ffill (col : list cell) : list cell := ffill_from missing col.

(** ** Data frames *)

(** A frame is its column labels and its rows in index order. *)
Record frame := { columns : list cell; rows : list (list cell) }.

Fixpoint index_of (l : cell) (cols : list cell) : option nat :=
  match cols with
  | [] => None
  | c :: cols' =>
      if cell_eqb l c then Some 0
      else option_map S (index_of l cols')
  end.

(** [l in df.columns] *)
Definition has_col (l : cell) (df : frame) : bool :=
  existsb (cell_eqb l) (columns df).

(** [df[l]] for a label that heads one column.  Under a label that heads
    several columns pandas hands back the frame of these columns, not a
    series; [get_col] then reads the first of them, and what is proved of
    a column read by [get_col] is meant for a label that occurs once. *)
Definition get_col (l : cell) (df : frame) : result (list cell) :=
  match index_of l (columns df) with
  | Some i => Ok (map (fun r => nth i r missing) (rows df))
  | None => Raise KeyError
  end.

(** One row of [df[l] = ...]: the value goes to every column labelled
    [l]. *)
Fixpoint write_row (l v : cell) (cols r : list cell) : list cell :=
  match cols with
  | [] => r
  | c :: cols' =>
      (if cell_eqb l c then v else hd missing r)
      :: write_row l v cols' (tl r)
  end.

(** [df[l] = vs] for a series [vs] on the index of [df]: the values of
    every column labelled [l] are replaced, a new label adds a last
    column. *)
Definition set_col (l : cell) (vs : list cell) (df : frame) : frame :=
  match index_of l (columns df) with
  | Some _ =>
      {| columns := columns df;
         rows := map (fun rv => write_row l (snd rv) (columns df) (fst rv))
                     (combine (rows df) vs) |}
  | None =>
      {| columns := columns df ++ [l];
         rows := map (fun rv => fst rv ++ [snd rv]) (combine (rows df) vs) |}
  end.

(** [df.dropna(how='all')]: a row is kept when some value is present. *)
Definition dropna_all (df : frame) : frame :=
  {| columns := columns df;
     rows := filter (fun r => existsb (fun c => negb (isna c)) r) (rows df) |}.

Fixpoint select_by {A} (mask : list bool) (l : list A) : list A :=
  match mask, l with
  | b :: mask', a :: l' =>
      if b then a :: select_by mask' l' else select_by mask' l'
  | _, _ => []
  end.

(** [df.drop(l, axis=1)]: every column labelled [l] goes. *)
Definition drop_label (l : cell) (df : frame) : frame :=
  let keep := map (fun c => negb (cell_eqb l c)) (columns df) in
  {| columns := select_by keep (columns df);
     rows := map (select_by keep) (rows df) |}.

(** [df.drop(index=0).reset_index(drop=True)] on a frame whose index is
    [0..n-1]: [KeyError] when there is no row 0. *)
Definition drop_row0 (df : frame) : result frame :=
  match rows df with
  | [] => Raise KeyError
  | _ :: rs => Ok {| columns := columns df; rows := rs |}
  end.

(** [df.iloc[0]] *)
Definition iloc0 (df : frame) : result (list cell) :=
  match rows df with
  | [] => Raise IndexError
  | r :: _ => Ok r
  end.

(** ** The reader (line 25) *)

(** A grid is the list of the lines of a sheet as the reader collects them
    from the top, every line padded to the width of the sheet, up to the
    last line that holds a value.  A cell of a grid is the value the reader
    gives it in the frame: a text, a number, or [missing] when the cell is
    empty. *)

(** The parser skips a line of a single cell that is empty or blank; a
    line of two cells or more is never skipped. *)
Definition keep_line (line : list cell) : bool :=
  match line with
  | [] => false
  | [CStr s] => negb (PyStr.eqb (strip s) [])
  | [CNum x] => negb (is_nan x)
  | _ :: _ :: _ => true
  end.

Section Reader.

(** The labels the parser makes of the header line: a text is kept, an
    empty cell is named after its position, a name that comes again gets a
    numbered suffix. *)
Variable header_names : list cell -> list cell.

(** [pd.read_excel(uploaded_file, sheet_name=sheet)], that is with
    [header=0]: the first line that is not skipped gives the labels and is
    no row of the frame; the lines below it are the rows.  A sheet without
    such a line gives the empty frame. *)
Definition read_excel (grid : list (list cell)) : frame :=
  match filter keep_line grid with
  | [] => {| columns := []; rows := [] |}
  | h :: data => {| columns := header_names h; rows := data |}
  end.

End Reader.

(** ** SheetNormalizer (lines 23-49) *)

(** What the script shows on the page. *)
Inductive msg :=
| Success (sheet : pystr) (kept : nat)
| SheetError (sheet : pystr) (e : exn)
| Warning (col : cell).

(** Lines 28-35 on the frame [pd.read_excel] returned: drop the first
    column by its label, drop row 0, make the next row the header and drop
    it from the data. *)
Definition drop_first_column (df : frame) : result frame :=
  match columns df with
  | [] => Raise IndexError
  | l :: _ => Ok (drop_label l df)
  end.

Definition promote_header (df : frame) : result frame :=
  hdr <- iloc0 df ;;
  drop_row0 {| columns := hdr; rows := rows df |}.

Definition strip_and_promote (df : frame) : result frame :=
  df1 <- drop_first_column df ;;
  df2 <- drop_row0 df1 ;;
  promote_header df2.

(** [df['client'] = sheet]: the scalar is broadcast over the index. *)
Definition add_client (sheet : pystr) (df : frame) : frame :=
  set_col (CStr (py "client"))
          (repeat (CStr sheet) (length (rows df))) df.

(** Lines 28-44 on the frame [df] read at line 25: the rest of the body of
    the inner [try], up to the frame stored in [sheets_data]. *)
Definition normalize_sheet (sheet : pystr) (df : frame) : result frame :=
  df3 <- strip_and_promote df ;;
  Ok (add_client sheet (dropna_all df3)).

(** Lines 25-44: the body of the inner [try] on the grid of a sheet. *)
Definition read_and_normalize (header_names : list cell -> list cell)
  (sheet : pystr) (grid : list (list cell)) : result frame :=
  normalize_sheet sheet (read_excel header_names grid).

(** [sheets_data[sheet] = df] on a dict kept in insertion order. *)
Fixpoint dict_set {V} (k : pystr) (v : V) (d : list (pystr * V))
  : list (pystr * V) :=
  match d with
  | [] => [(k, v)]
  | (k', v') :: d' =>
      if PyStr.eqb k k' then (k, v) :: d' else (k', v') :: dict_set k v d'
  end.

(** The loop of lines 23-49 over the sheets, each with the frame read from
    it: a sheet whose body raises is reported and the loop goes on to the
    next sheet. *)
Fixpoint process_sheets (sheets : list (pystr * frame))
  (sheets_data : list (pystr * frame)) : list (pystr * frame) * list msg :=
  match sheets with
  | [] => (sheets_data, [])
  | (sheet, df) :: rest =>
      match normalize_sheet sheet df with
      | Ok t =>
          let (d, log) := process_sheets rest (dict_set sheet t sheets_data) in
          (d, Success sheet (length (rows t)) :: log)
      | Raise e =>
          let (d, log) := process_sheets rest sheets_data in
          (d, SheetError sheet e :: log)
      end
  end.

(** ** ColumnNameCleaner (lines 52-58) *)

(** [.str.strip().str.lower().str.replace(r'\s+', ' ', regex=True)] on one
    label; the [.str] methods give [NaN] for a label that is not text. *)
Definition clean_name {U : UnicodeData} (s : pystr) : pystr :=
  collapse_spaces (lower (strip s)).

Definition clean_label {U : UnicodeData} (l : cell) : cell :=
  match l with
  | CStr s => CStr (clean_name s)
  | CNum _ => missing
  end.

Definition clean_columns {U : UnicodeData} (df : frame) : frame :=
  {| columns := map clean_label (columns df); rows := rows df |}.

(** ** TableCombiner (lines 60-80) *)

Fixpoint add_labels (acc new : list cell) : list cell :=
  match new with
  | [] => acc
  | l :: new' =>
      add_labels (if existsb (cell_eqb l) acc then acc else acc ++ [l]) new'
  end.

Fixpoint has_dup (cols : list cell) : bool :=
  match cols with
  | [] => false
  | c :: cols' => existsb (cell_eqb c) cols' || has_dup cols'
  end.

Fixpoint labels_eqb (a b : list cell) : bool :=
  match a, b with
  | [], [] => true
  | x :: a', y :: b' => cell_eqb x y && labels_eqb a' b'
  | _, _ => false
  end.

Definition reindex_row (from to : list cell) (r : list cell) : list cell :=
  map (fun l => match index_of l from with
                | Some i => nth i r missing
                | None => missing
                end) to.

(** [pd.concat(frames, ignore_index=True)]: the rows of the frames one after
    the other over the union of their columns, in order of first
    appearance, [NaN] where a frame lacks a column.  Frames with the same
    columns are stacked as they are; otherwise a frame with a repeated label
    cannot be reindexed. *)
Definition concat (frames : list frame) : result frame :=
  match frames with
  | [] => Raise ValueError
  | f0 :: rest =>
      if forallb (fun f => labels_eqb (columns f) (columns f0)) rest
      then Ok {| columns := columns f0; rows := flat_map rows frames |}
      else if existsb (fun f => has_dup (columns f)) frames
      then Raise InvalidIndexError
      else
        let cols := fold_left (fun acc f => add_labels acc (columns f))
                              frames [] in
        Ok {| columns := cols;
              rows := flat_map (fun f => map (reindex_row (columns f) cols)
                                             (rows f)) frames |}
  end.

Definition job_no : cell := CStr (py "job no").
Definition quantity_mt : cell := CStr (py "quantity/mt").
Definition invoice_amount : cell := CStr (py "invoice amount").
Definition client : cell := CStr (py "client").
Definition currency : cell := CStr (py "currency").

(** Line 65: [combined_df['job no'] = combined_df['job no'].ffill()] *)
Definition ffill_job_no (df : frame) : result frame :=
  col <- get_col job_no df ;;
  Ok (set_col job_no (ffill col) df).

(** Lines 68-80: the loop over the two numeric columns.  A column that is
    absent is reported and skipped; a value that is not a number raises. *)
Fixpoint coerce_numeric {U : UnicodeData} (cols : list cell) (df : frame)
  : list msg * result frame :=
  match cols with
  | [] => ([], Ok df)
  | col :: cols' =>
      if has_col col df
      then match (vs <- get_col col df ;; coerce_column vs) with
           | Ok xs => coerce_numeric cols' (set_col col (map CNum xs) df)
           | Raise e => ([], Raise e)
           end
      else
        let (log, r) := coerce_numeric cols' df in
        (Warning col :: log, r)
  end.

Definition numeric_columns : list cell := [quantity_mt; invoice_amount].

(** Lines 61-80. *)
Definition table_combiner {U : UnicodeData} (tables : list frame)
  : list msg * result frame :=
  match (c <- concat tables ;; ffill_job_no (dropna_all c)) with
  | Ok c => coerce_numeric numeric_columns c
  | Raise e => ([], Raise e)
  end.

(** ** Aggregator *)

Fixpoint insert {A} (leb : A -> A -> bool) (x : A) (l : list A) : list A :=
  match l with
  | [] => [x]
  | y :: l' => if leb x y then x :: l else y :: insert leb x l'
  end.

(** Sorting in ascending order. *)
Definition sort {A} (leb : A -> A -> bool) (l : list A) : list A :=
  fold_right (insert leb) [] l.

(** The distinct elements of [l], each at its first occurrence. *)
Fixpoint uniq {A} (eqb : A -> A -> bool) (l : list A) : list A :=
  match l with
  | [] => []
  | a :: l' => a :: filter (fun b => negb (eqb a b)) (uniq eqb l')
  end.

(** The sum of one group as [groupby(...).sum()] computes it on a float
    column: compensated summation in row order, [NaN] skipped, and 0.0 for a
    group with no value. *)
Definition kahan_step (st : float * float) (v : float) : float * float :=
  let (sumx, comp) := st in
  if is_nan v then st
  else
    let y := fsub v comp in
    let t := fadd sumx y in
    let c := fsub (fsub t sumx) y in
    (t, if is_nan c then zero else c).

Definition group_sum (vals : list float) : float :=
  fst (fold_left kahan_step vals (zero, zero)).

(** [Series.sum()] (line 228) fills [NaN] with 0.0 and hands the array to
    numpy, whose sum of a float array is a pairwise summation: fewer than 8
    values are added from left to right; up to 128 values go to 8 running
    sums, one for each position modulo 8, that are added as a balanced tree
    before the values past the last full block of 8 are added one by one;
    a longer array is cut in two near its middle, at a multiple of 8, and
    the sums of the two parts are added. *)
Definition neg_zero : float := S754_zero true.

Definition add8 (r a : list float) : list float :=
  map (fun p => fadd (fst p) (snd p)) (combine r a).

(** [k] more blocks of 8 values added to the running sums [r]. *)
Fixpoint blocks8 (k : nat) (r a : list float) : list float * list float :=
  match k with
  | O => (r, a)
  | S k' => blocks8 k' (add8 r (firstn 8 a)) (skipn 8 a)
  end.

Definition tree8 (r : list float) : float :=
  match r with
  | [r0; r1; r2; r3; r4; r5; r6; r7] =>
      fadd (fadd (fadd r0 r1) (fadd r2 r3)) (fadd (fadd r4 r5) (fadd r6 r7))
  | _ => neg_zero
  end.

(** The recursion halves the array; [fuel] bounds its depth, and the length
    of the array is always enough ([pairwise_sum_fuel]). *)
Fixpoint pairwise_sum (fuel : nat) (a : list float) : float :=
  let n := length a in
  if n <? 8 then fold_left fadd a neg_zero
  else if n <=? 128 then
    let (r, rest) := blocks8 ((n - 8) / 8) (firstn 8 a) (skipn 8 a) in
    fold_left fadd rest (tree8 r)
  else
    match fuel with
    | O => neg_zero
    | S fuel' =>
        let n2 := n / 2 - (n / 2) mod 8 in
        fadd (pairwise_sum fuel' (firstn n2 a))
             (pairwise_sum fuel' (skipn n2 a))
    end.

(** [ndarray.sum()]: 0.0 for an empty array; otherwise the pairwise sum is
    added to -0.0, the value numpy starts a sum of floats from, so that a
    sum of values that are all -0.0 is -0.0; starting from 0.0 gives
    another result for such an array only. *)
Definition np_sum (a : list float) : float :=
  match a with
  | [] => zero
  | _ => fadd neg_zero (pairwise_sum (length a) a)
  end.

Definition nansum (vals : list float) : float :=
  np_sum (map (fun v => if is_nan v then zero else v) vals).

(** A column the aggregations read as numbers. *)
Definition as_float (c : cell) : result float :=
  match c with
  | CNum x => Ok x
  | CStr _ => Raise TypeError
  end.

Definition numeric_col (l : cell) (df : frame) : result (list float) :=
  col <- get_col l df ;; mapM as_float col.

(** *** summarizeByClientCurrency (lines 83-95) *)

Record summary_row := {
  s_client : cell;
  s_currency : cell;
  s_quantity : float;
  s_invoice : float
}.

Definition key2 : Type := cell * cell.

Definition key2_eqb (a b : key2) : bool :=
  cell_eqb (fst a) (fst b) && cell_eqb (snd a) (snd b).

Definition key2_leb (a b : key2) : bool :=
  if cell_eqb (fst a) (fst b) then cell_leb (snd a) (snd b)
  else cell_leb (fst a) (fst b).

Definition key2_isna (k : key2) : bool := isna (fst k) || isna (snd k).

(** The rows of the combined table as the grouping reads them:
    ((client, currency), (quantity, invoice)). *)
Definition record : Type := key2 * (float * float).

(** [groupby(['client', 'currency']).agg({... 'sum'}).reset_index()]: rows
    with a missing key are dropped, the groups come in sorted key order. *)
Definition grouped (recs : list record) : list summary_row :=
  let present := filter (fun r => negb (key2_isna (fst r))) recs in
  map (fun k =>
         let grp := filter (fun r => key2_eqb k (fst r)) present in
         {| s_client := fst k; s_currency := snd k;
            s_quantity := group_sum (map (fun r => fst (snd r)) grp);
            s_invoice := group_sum (map (fun r => snd (snd r)) grp) |})
      (sort key2_leb (uniq key2_eqb (map fst present))).

(** [summary['currency'].astype(str).str.strip() == ''] *)
Definition blank (c : cell) : bool :=
  text_is_empty (str_strip (astype_str c)).

(** The mask of lines 89-93. *)
Definition artifact (r : summary_row) : bool :=
  blank (s_currency r) && feqb (s_quantity r) zero && feqb (s_invoice r) zero.

(** Line 95: [dropna(subset=[...], how='all')] drops a row whose two totals
    are both [NaN]. *)
Definition both_nan (r : summary_row) : bool :=
  is_nan (s_quantity r) && is_nan (s_invoice r).

Definition summarize (recs : list record) : list summary_row :=
  filter (fun r => negb (both_nan r))
         (filter (fun r => negb (artifact r)) (grouped recs)).

Definition records (df : frame) : result (list record) :=
  cl <- get_col client df ;;
  cu <- get_col currency df ;;
  q <- numeric_col quantity_mt df ;;
  i <- numeric_col invoice_amount df ;;
  Ok (combine (combine cl cu) (combine q i)).

Definition summary (df : frame) : result (list summary_row) :=
  recs <- records df ;; Ok (summarize recs).

(** *** firstJobIdByClientPivot (lines 109-127) *)

(** [.drop_duplicates('client')]: the first row of every client. *)
Fixpoint drop_duplicates (l : list (cell * cell)) : list (cell * cell) :=
  match l with
  | [] => []
  | p :: l' =>
      p :: filter (fun q => negb (cell_eqb (fst p) (fst q)))
                  (drop_duplicates l')
  end.

(** Lines 109-117 on the columns [client] and [job no]. *)
Definition first_jobs (pairs : list (cell * cell)) : list (cell * cell) :=
  filter (fun p => has_two_dots (astype_str (snd p)))
         (drop_duplicates
            (filter (fun p => negb (isna (fst p)) && negb (isna (snd p)))
                    pairs)).

(** [.astype(str).str.split('.').str[1]].  It is only asked of a job number
    that passed the filter of line 117, which is text. *)
Definition month_of (job : cell) : option pystr :=
  match astype_str job with
  | Lit s => nth_error (split_on dot s) 1
  | Repr _ => None
  end.

(** [first_jobs.groupby('Month')['client'].apply(list).to_dict()] *)
Definition month_groups (fj : list (cell * cell))
  : list (pystr * list cell) :=
  let keyed := flat_map (fun p => match month_of (snd p) with
                                  | Some m => [(m, fst p)]
                                  | None => []
                                  end) fj in
  map (fun m => (m, map snd (filter (fun e => PyStr.eqb m (fst e)) keyed)))
      (sort PyStr.leb (uniq PyStr.eqb (map fst keyed))).

(** [d[k]] *)
Fixpoint dict_get {V} (k : pystr) (d : list (pystr * V)) : option V :=
  match d with
  | [] => None
  | (k', v) :: d' => if PyStr.eqb k k' then Some v else dict_get k d'
  end.

(** [itertools.zip_longest] over the columns, with fill value [None]: row
    [i] takes the
    [i]-th element of every column, [None] from a column that has run out;
    it stops when every column has run out.  [n] bounds the rows left. *)
Fixpoint zip_longest_upto {A} (n : nat) (cols : list (list A))
  : list (list (option A)) :=
  match n with
  | O => []
  | S n' =>
      if forallb (fun c => match c with [] => true | _ => false end) cols
      then []
      else map (@hd_error A) cols :: zip_longest_upto n' (map (@tl A) cols)
  end.

Definition max_length {A} (cols : list (list A)) : nat :=
  fold_right (fun c m => Nat.max (length c) m) 0 cols.

Definition zip_longest {A} (cols : list (list A)) : list (list (option A)) :=
  zip_longest_upto (max_length cols) cols.

Definition of_option (o : option cell) : cell :=
  match o with
  | Some c => c
  | None => missing
  end.

(** Lines 121-127. *)
Definition pivot (fj : list (cell * cell)) : frame :=
  let groups := month_groups fj in
  let sorted_months := sort PyStr.leb (map fst groups) in
  let cols := map (fun m => match dict_get m groups with
                            | Some cl => cl
                            | None => []
                            end) sorted_months in
  dropna_all
    {| columns := map (fun m => CStr (py "Job No." ++ m)) sorted_months;
       rows := map (map of_option) (zip_longest cols) |}.

Definition first_jobs_pivot (df : frame) : result frame :=
  cl <- get_col client df ;;
  jn <- get_col job_no df ;;
  Ok (pivot (first_jobs (combine cl jn))).

(** *** globalTotals (lines 228-245) *)

(** Line 228. *)
Definition total_qty (df : frame) : result float :=
  q <- numeric_col quantity_mt df ;; Ok (nansum q).

(** [groupby('currency')['invoice amount'].sum()]: a series of totals
    labelled by the currency as written in the table. *)
Definition sum_by_currency (recs : list (cell * float))
  : list (cell * float) :=
  let present := filter (fun r => negb (isna (fst r))) recs in
  map (fun k =>
         (k, group_sum (map snd (filter (fun r => cell_eqb k (fst r))
                                        present))))
      (sort cell_leb (uniq cell_eqb (map fst present))).

(** [lambda c: c.strip().upper() if isinstance(c, str) else c] *)
Definition normalize_code {U : UnicodeData} (c : cell) : cell :=
  match c with
  | CStr s => CStr (upper (strip s))
  | CNum _ => c
  end.

(** Lines 231-236: the labels are rewritten after the totals are taken. *)
Definition inv_by_cur {U : UnicodeData} (df : frame)
  : result (list (cell * float)) :=
  cu <- get_col currency df ;;
  i <- numeric_col invoice_amount df ;;
  Ok (map (fun e => (normalize_code (fst e), snd e))
          (sum_by_currency (combine cu i))).

(** [Series.get(key, default)]: the value under a label that occurs once,
    the sub-series of the values under a label that occurs more than once,
    the default when the label does not occur. *)
Inductive lookup :=
| Scalar (x : float)
| SubSeries (xs : list float)
| Default.

Definition series_get (key : cell) (s : list (cell * float)) : lookup :=
  match filter (fun e => cell_eqb key (fst e)) s with
  | [] => Default
  | [e] => Scalar (snd e)
  | es => SubSeries (map snd es)
  end.

(** The value a metric card formats with [:,.2f]; the default is 0.  A
    series does not take that format and [TypeError] is raised. *)
Definition metric_value (l : lookup) : result float :=
  match l with
  | Scalar x => Ok x
  | Default => Ok zero
  | SubSeries _ => Raise TypeError
  end.

Definition invoice_metric {U : UnicodeData} (code : pystr) (df : frame)
  : result float :=
  s <- inv_by_cur df ;; metric_value (series_get (CStr code) s).

(** Lines 16-80: the sheets are normalised one by one, the tables that
    were stored are cleaned and combined. *)
Definition load_and_combine {U : UnicodeData} (sheets : list (pystr * frame))
  : list msg * result frame :=
  let (sheets_data, log1) := process_sheets sheets [] in
  let (log2, r) :=
    table_combiner (map (fun kv => clean_columns (snd kv)) sheets_data) in
  (log1 ++ log2, r).

(** ** The coercion of one value, in the words of the specification *)

(** Remove commas, remove no-break spaces, trim, and read an empty text as
    the text 0. *)
Definition cleanup (t : text) : text :=
  replace_empty (py "0") (str_strip (str_remove nbsp (str_remove comma t))).

(** Convert to text, clean up, parse as a floating-point number. *)
Definition coerce_value {U : UnicodeData} (c : cell) : result float :=
  text_to_float (cleanup (astype_str c)).

(** ** Sample tables *)

Definition txt (s : string) : cell := CStr (py s).
Arguments txt s%_string.

Definition one : float := of_binary 1 0.
Definition two : float := of_binary 2 0.

(** Two cleaned sheet tables.  Sheet A has an empty quantity cell and a
    blank invoice cell; sheet B starts with an empty job number. *)
Definition sheet_a : frame :=
  {| columns := [job_no; quantity_mt; invoice_amount; currency; client];
     rows := [ [txt "3.07.1"; txt "1,234.50"; CNum one; txt "USD"; txt "A"];
               [missing; missing; txt " "; txt "USD"; txt "A"] ] |}.

Definition sheet_b : frame :=
  {| columns := [job_no; quantity_mt; invoice_amount; currency; client];
     rows := [ [missing; CStr (nbsp :: py "500"); txt "2"; missing;
                txt "B"] ] |}.

(** Their combined table after the forward fill and before the coercion,
    and after the coercion. *)
Definition shipments : frame :=
  {| columns := [job_no; quantity_mt; invoice_amount; currency; client];
     rows := [ [txt "3.07.1"; txt "1,234.50"; CNum one; txt "USD"; txt "A"];
               [txt "3.07.1"; missing; txt " "; txt "USD"; txt "A"];
               [txt "3.07.1"; CStr (nbsp :: py "500"); txt "2"; missing;
                txt "B"] ] |}.

Definition shipments_typed : frame :=
  {| columns := [job_no; quantity_mt; invoice_amount; currency; client];
     rows := [ [txt "3.07.1"; CNum (of_binary 2469 (-1)); CNum one;
                txt "USD"; txt "A"];
               [txt "3.07.1"; CNum nan; CNum zero; txt "USD"; txt "A"];
               [txt "3.07.1"; CNum (of_binary 500 0); CNum two; missing;
                txt "B"] ] |}.

(** A sheet as [pd.read_excel] returns it: the labels come from the first
    line of the sheet, then a title row, the header row and the data. *)
Definition raw_sheet : frame :=
  {| columns := [txt "Unnamed: 0"; txt "Report"; txt "Unnamed: 2"];
     rows := [ [missing; txt "2024"; missing];
               [missing; txt "Job No"; txt "Quantity/MT"];
               [txt "x"; txt "3.07.1"; txt "1,000"];
               [txt "y"; missing; missing];
               [missing; missing; txt "500"] ] |}.

(** A sheet with a single row under its labels. *)
Definition short_sheet : frame :=
  {| columns := [txt "Unnamed: 0"; txt "Report"];
     rows := [ [missing; txt "2024"] ] |}.

(** A combined table in which one currency is written in two ways. *)
Definition two_spellings : frame :=
  {| columns := [job_no; quantity_mt; invoice_amount; currency; client];
     rows := [ [txt "3.07.1"; CNum one; CNum one; txt "USD"; txt "A"];
               [txt "3.07.1"; CNum one; CNum two; txt "usd"; txt "A"] ] |}.

(** A sheet table whose amounts are the texts inf and -inf, and its
    combined table. *)
Definition offsetting_sheet : frame :=
  {| columns := [job_no; quantity_mt; invoice_amount; currency; client];
     rows := [ [txt "3.07.1"; txt "inf"; txt "inf"; txt "USD"; txt "A"];
               [txt "3.07.2"; txt "-inf"; txt "-inf"; txt "USD"; txt "A"] ]
  |}.

Definition offsetting_typed : frame :=
  {| columns := [job_no; quantity_mt; invoice_amount; currency; client];
     rows := [ [txt "3.07.1"; CNum (S754_infinity false);
                CNum (S754_infinity false); txt "USD"; txt "A"];
               [txt "3.07.2"; CNum (S754_infinity true);
                CNum (S754_infinity true); txt "USD"; txt "A"] ] |}.

(** The summary as the specification words it: the grouped rows without
    those of blank currency and two zero totals, and nothing else left
    out. *)
Definition summary_keeps_all_other_rows : Prop :=
  forall df out,
    summary df = Ok out ->
    forall r, In r out <->
              (exists recs, records df = Ok recs /\ In r (grouped recs))
              /\ artifact r = false.

(** The clients whose first job number has the middle segment [m], in the
    order of the table. *)
Definition clients_of_month (fj : list (cell * cell)) (m : pystr)
  : list cell :=
  map fst (filter (fun p => match month_of (snd p) with
                            | Some m' => PyStr.eqb m m'
                            | None => false
                            end) fj).

(** The (month, client) pairs the grouping by month reads, and their
    months. *)
Definition keyed_clients (fj : list (cell * cell)) : list (pystr * cell) :=
  flat_map (fun p => match month_of (snd p) with
                     | Some m => [(m, fst p)]
                     | None => []
                     end) fj.

Definition months_of (fj : list (cell * cell)) : list pystr :=
  flat_map (fun p => match month_of (snd p) with
                     | Some m => [m]
                     | None => []
                     end) fj.

(** The months of the pivot: the distinct middle segments in ascending
    order.  The keys of the groups are sorted a second time by the
    script. *)
Definition pivot_months (fj : list (cell * cell)) : list pystr :=
  sort PyStr.leb (sort PyStr.leb (uniq PyStr.eqb (months_of fj))).

(** The rows that have a client and a job number. *)
Definition has_job (p : cell * cell) : bool :=
  negb (isna (fst p)) && negb (isna (snd p)).

(** The sample of the specification: three clients and their job
    numbers. *)
Definition sample_jobs : list (cell * cell) :=
  [ (txt "client1", txt "3.07.1"); (txt "client2", txt "5.09.2");
    (txt "client3", txt "9.07.3") ].

(** A string is trimmed when it neither starts nor ends with whitespace. *)
Definition trimmed (s : pystr) : Prop :=
  head_ok s = true /\ head_ok (rev s) = true.

(** The rows of the combined table that have a currency. *)
Definition has_currency (r : record) : bool := negb (isna (snd (fst r))).

(** The numeric columns as the specification words them: after the
    combiner every cell of a numeric column is a number, and a cell that
    was missing is 0.0. *)
Definition missing_coerced_to_zero {U : UnicodeData} : Prop :=
  forall tables c log df l col col',
    (c0 <- concat tables ;; ffill_job_no (dropna_all c0)) = Ok c ->
    table_combiner tables = (log, Ok df) ->
    In l numeric_columns ->
    get_col l c = Ok col -> get_col l df = Ok col' ->
    Forall (fun v => is_str v = false) col'
    /\ forall i, i < length col -> isna (nth i col missing) = true ->
         nth i col' missing = CNum zero.

Definition text_labels (cols : list cell) : Prop :=
  forall l, In l cols -> exists s, l = CStr s.

(** ** The breakdown by commodity of one client (lines 134-147, 178-189) *)

Definition commodity : cell := CStr (py "commodity").

(** [combined_df['client'].unique()]: the clients in order of first
    appearance. *)
Definition clients (df : frame) : result (list cell) :=
  cl <- get_col client df ;; Ok (uniq cell_eqb cl).

(** [v == c] as the comparison of a series with a scalar evaluates it on
    one element: [NaN] equals nothing. *)
Definition cell_equals (v c : cell) : bool :=
  match v, c with
  | CStr s, CStr t => PyStr.eqb s t
  | CNum x, CNum y => feqb x y
  | _, _ => false
  end.

(** [combined_df[combined_df['client'] == c]] *)
Definition client_df (c : cell) (df : frame) : result frame :=
  cl <- get_col client df ;;
  Ok {| columns := columns df;
        rows := select_by (map (fun v => cell_equals v c) cl) (rows df) |}.

(** [.groupby('commodity', as_index=False)['quantity/mt'].sum()]: the same
    grouping by one key as the one of the invoice totals. *)
Definition commodity_totals (df : frame) : result (list (cell * float)) :=
  co <- get_col commodity df ;;
  q <- numeric_col quantity_mt df ;;
  Ok (sum_by_currency (combine co q)).

(** What one round of the chart loops shows for a client. *)
Inductive chart :=
| NoData (c : cell)
| Chart (c : cell) (bars : list (cell * float)).

Section Breakdown.

(** [.sort_values(by='quantity/mt', ascending=False)].  The order it gives
    to equal totals depends on the sorting routine of numpy; the routine is
    a parameter, and the properties below ask of it only that it rearranges
    its argument. *)
Variable sort_values : list (cell * float) -> list (cell * float).

(** The table [summary] of lines 138-143. *)
Definition breakdown (c : cell) (df : frame) : result (list (cell * float)) :=
  sel <- client_df c df ;;
  tot <- commodity_totals sel ;;
  Ok (sort_values tot).

(** The loop of lines 136-172, as far as the data goes: a client whose
    table is empty is reported and skipped, the others get a chart of their
    table.  The drawing calls are not modelled. *)
Definition charts (df : frame) : result (list chart) :=
  cs <- clients df ;;
  mapM (fun c => s <- breakdown c df ;;
                 Ok (match s with
                     | [] => NoData c
                     | _ :: _ => Chart c s
                     end)) cs.

End Breakdown.

(** Sorting by total, largest first, with the sort of this file. *)
Definition sort_desc (l : list (cell * float)) : list (cell * float) :=
  sort (fun a b => fleb (snd b) (snd a)) l.

(** The column [l] of a table as [pd.concat] lays it out: the values of the
    table, or as many [NaN] as the table has rows when it has no such
    column. *)
Definition column_or_missing (l : cell) (f : frame) : list cell :=
  match get_col l f with
  | Ok v => v
  | Raise _ => repeat missing (length (rows f))
  end.

(** The sheet a message is about. *)
Definition msg_sheet (m : msg) : option pystr :=
  match m with
  | Success sheet _ => Some sheet
  | SheetError sheet _ => Some sheet
  | Warning _ => None
  end.

(** Every row is as long as the list of labels. *)
Definition rectangular (df : frame) : Prop :=
  Forall (fun r => length r = length (columns df)) (rows df).

(** A commodity table with an entry for client A only. *)
Definition cargo : frame :=
  {| columns := [client; commodity; quantity_mt];
     rows := [ [txt "A"; txt "wheat"; CNum one];
               [txt "B"; missing; CNum two];
               [txt "A"; txt "corn"; CNum two] ] |}.

(** The representative of a key among the keys equal to it: the two zeros
    are one key. *)
Definition canon (c : cell) : cell :=
  match c with
  | CNum (S754_zero _) => CNum zero
  | _ => c
  end.

(** The key of a summary row. *)
Definition row_key (r : summary_row) : key2 := (s_client r, s_currency r).

(** A row of the combined table that has both keys and whose keys equal
    [k]. *)
Definition in_group (k : key2) (rec : record) : bool :=
  negb (key2_isna (fst rec)) && key2_eqb k (fst rec).

(** The client a round of the chart loop is about. *)
Definition chart_client (ch : chart) : cell :=
  match ch with
  | NoData c => c
  | Chart c _ => c
  end.

(** ** The rows of the pivot, in the words of the specification *)

(** A job identifier with exactly two dot separators. *)
Definition two_dot_text (j : cell) : bool :=
  match j with
  | CStr s => Nat.eqb (count_char dot s) 2
  | CNum _ => false
  end.

(** [p] is the first row of its client: it has a client and a job number,
    and no row of [above] that has both is of the same client. *)
Definition first_of_client (above : list (cell * cell)) (p : cell * cell)
  : bool :=
  has_job p
  && negb (existsb (fun q => has_job q && cell_eqb (fst q) (fst p)) above).

(** The table read from the top, [above] being the rows already read: a
    row is taken when it is the first row of its client and its job
    identifier has exactly two dots. *)
Fixpoint first_job_rows (above l : list (cell * cell))
  : list (cell * cell) :=
  match l with
  | [] => []
  | p :: l' =>
      (if first_of_client above p && two_dot_text (snd p) then [p] else [])
      ++ first_job_rows (above ++ [p]) l'
  end.


(** ** Sample sheets *)

(** A sheet of five lines: a title line, a line of notes, the header line
    and two lines of data. *)
Definition report_grid : list (list cell) :=
  [ [txt "Report"; txt "2024"; txt "Q1"];
    [txt "No"; txt "a"; txt "b"];
    [missing; txt "Job No"; txt "Quantity/MT"];
    [txt "x"; txt "3.07.1"; txt "1,000"];
    [txt "y"; missing; txt "500"] ].



(** The reading of the header promotion checked against the reader: the
    first two lines of the grid go, and the second line without its first
    cell gives the column names. *)
Definition second_line_is_header (header_names : list cell -> list cell)
  (grid : list (list cell)) : Prop :=
  exists l1 l2 rest,
    grid = l1 :: l2 :: rest
    /\ strip_and_promote (read_excel header_names grid)
       = Ok {| columns := tl l2; rows := map (@tl cell) rest |}.




(* ================================================================= *)
(** * Properties *)

Unset Implicit Arguments.

(** ** Results and lists *)

Lemma mapM_map {A B C} (f : B -> result C) (g : A -> B) (l : list A) :
  mapM f (map g l) = mapM (fun a => f (g a)) l.
Proof.
  induction l as [|a l IH]; simpl; [reflexivity|].
  rewrite IH. reflexivity.
Qed.

Lemma mapM_Ok_Forall2 {A B} (f : A -> result B) (l : list A) (ys : list B) :
  mapM f l = Ok ys <-> Forall2 (fun a b => f a = Ok b) l ys.
Proof.
  revert ys. induction l as [|a l IH]; intros ys; simpl.
  - split; intros H.
    + injection H as <-. constructor.
    + inversion H. reflexivity.
  - split; intros H.
    + destruct (f a) as [b|e] eqn:Ha; simpl in H; [|discriminate].
      destruct (mapM f l) as [bs|e] eqn:Hl; simpl in H; [|discriminate].
      injection H as <-. constructor; [assumption|]. now apply IH.
    + inversion H as [|a' b l' bs Hab Hrest]; subst.
      apply IH in Hrest. rewrite Hab, Hrest. reflexivity.
Qed.

Lemma mapM_length {A B} (f : A -> result B) (l : list A) (ys : list B) :
  mapM f l = Ok ys -> length ys = length l.
Proof.
  intros H. apply mapM_Ok_Forall2 in H.
  symmetry. eapply Forall2_length; eassumption.
Qed.



Lemma filter_all {A} (f : A -> bool) (l : list A) :
  (forall a, In a l -> f a = true) -> filter f l = l.
Proof.
  induction l as [|a l IH]; simpl; intros H; [reflexivity|].
  rewrite (H a (or_introl eq_refl)). f_equal.
  apply IH. intros b Hb. apply H. now right.
Qed.

(** ** Frames *)

Lemma cell_eqb_str (s : pystr) (c : cell) :
  cell_eqb (CStr s) c = true <-> c = CStr s.
Proof.
  destruct c as [t|x]; simpl.
  - unfold PyStr.eqb. destruct (list_eq_dec N.eq_dec s t); split; congruence.
  - split; discriminate.
Qed.

Lemma index_of_nth (l : cell) (cols : list cell) (i : nat) :
  index_of l cols = Some i -> cell_eqb l (nth i cols missing) = true.
Proof.
  revert i. induction cols as [|c cols IH]; simpl; intros i H; [discriminate|].
  destruct (cell_eqb l c) eqn:E.
  - injection H as <-. exact E.
  - destruct (index_of l cols) as [j|]; simpl in H; [|discriminate].
    injection H as <-. now apply IH.
Qed.

Lemma has_col_index (l : cell) (df : frame) :
  has_col l df = true <-> exists i, index_of l (columns df) = Some i.
Proof.
  unfold has_col. induction (columns df) as [|c cols IH]; simpl.
  - split; [discriminate|intros [i H]; discriminate].
  - destruct (cell_eqb l c); simpl.
    + split; [now exists 0|reflexivity].
    + rewrite IH. split; intros [i H].
      * exists (S i). now rewrite H.
      * destruct (index_of l cols) as [j|]; [now exists j|discriminate].
Qed.

(** Two different text labels sit at different positions. *)
Lemma index_of_str_inj (s t : pystr) (cols : list cell) (i j : nat) :
  s <> t ->
  index_of (CStr s) cols = Some i -> index_of (CStr t) cols = Some j ->
  i <> j.
Proof.
  intros Hne Hi Hj ->. apply index_of_nth in Hi, Hj.
  apply cell_eqb_str in Hi, Hj. congruence.
Qed.

Lemma index_of_lt (l : cell) (cols : list cell) (i : nat) :
  index_of l cols = Some i -> i < length cols.
Proof.
  revert i. induction cols as [|c cols IH]; cbn [index_of]; intros i H;
    [discriminate|].
  destruct (cell_eqb l c).
  - injection H as <-. simpl. lia.
  - destruct (index_of l cols) as [j|]; [|discriminate].
    injection H as <-. specialize (IH j eq_refl). simpl. lia.
Qed.

(** A written row holds the value under the label and the old values
    elsewhere. *)
Lemma nth_write_row (l v : cell) (cols : list cell) :
  forall r j,
    nth j (write_row l v cols r) missing
    = if (j <? length cols) && cell_eqb l (nth j cols missing)
      then v else nth j r missing.
Proof.
  induction cols as [|c cols IH]; intros r j; cbn [write_row length].
  - reflexivity.
  - destruct j as [|j].
    + cbn [nth Nat.ltb Nat.leb andb]. now destruct r.
    + cbn [nth]. rewrite IH.
      change (S j <? S (length cols)) with (j <? length cols).
      destruct ((j <? length cols) && cell_eqb l (nth j cols missing));
        [reflexivity|].
      destruct r; [now destruct j|reflexivity].
Qed.

Lemma length_write_row (l v : cell) (cols : list cell) :
  forall r, length r = length cols ->
    length (write_row l v cols r) = length cols.
Proof.
  induction cols as [|c cols IH]; intros r H; cbn [write_row length].
  - destruct r; [reflexivity|discriminate].
  - f_equal. apply IH. destruct r; [discriminate|]. simpl in *. lia.
Qed.

Lemma columns_set_col_present (l : cell) (vs : list cell) (df : frame) (i : nat) :
  index_of l (columns df) = Some i ->
  columns (set_col l vs df) = columns df.
Proof. intros H. unfold set_col. rewrite H. reflexivity. Qed.

Lemma length_rows_set_col (l : cell) (vs : list cell) (df : frame) :
  length vs = length (rows df) ->
  length (rows (set_col l vs df)) = length (rows df).
Proof.
  intros H. unfold set_col.
  destruct (index_of l (columns df)); simpl;
    rewrite length_map, length_combine; lia.
Qed.

Lemma length_get_col (l : cell) (df : frame) (col : list cell) :
  get_col l df = Ok col -> length col = length (rows df).
Proof.
  unfold get_col. destruct (index_of l (columns df)); [|discriminate].
  intros H. injection H as <-. apply length_map.
Qed.

Lemma get_col_set_col_same (l : cell) (vs : list cell) (df : frame) (i : nat) :
  index_of l (columns df) = Some i ->
  length vs = length (rows df) ->
  get_col l (set_col l vs df) = Ok vs.
Proof.
  intros Hi Hlen. unfold get_col, set_col. rewrite Hi. cbn [columns rows].
  rewrite Hi. f_equal. rewrite map_map.
  pose proof (index_of_lt _ _ _ Hi) as Hlt. apply Nat.ltb_lt in Hlt.
  pose proof (index_of_nth _ _ _ Hi) as Hnth.
  revert vs Hlen.
  induction (rows df) as [|r rs IH]; intros [|v vs] Hlen;
    try discriminate; cbn [combine map fst snd]; [reflexivity|].
  rewrite nth_write_row, Hlt, Hnth. cbn [andb]. f_equal.
  apply IH. simpl in Hlen. lia.
Qed.

Lemma get_col_set_col_other (l l' : cell) (vs : list cell) (df : frame)
  (i j : nat) :
  index_of l (columns df) = Some i ->
  index_of l' (columns df) = Some j ->
  cell_eqb l (nth j (columns df) missing) = false ->
  length vs = length (rows df) ->
  get_col l' (set_col l vs df) = get_col l' df.
Proof.
  intros Hi Hj Hne Hlen. unfold get_col, set_col. rewrite Hi.
  cbn [columns rows]. rewrite Hj. f_equal. rewrite map_map. revert vs Hlen.
  induction (rows df) as [|r rs IH]; intros [|v vs] Hlen;
    try discriminate; cbn [combine map fst snd]; [reflexivity|].
  rewrite nth_write_row, Hne, andb_false_r. f_equal. apply IH.
  simpl in Hlen. lia.
Qed.


(** ** Numeric coercion *)

Section Coercion.
Context {U : UnicodeData}.

(** The chain of series methods is the value-wise coercion. *)
Lemma coerce_column_by_value (col : list cell) :
  coerce_column col = mapM coerce_value col.
Proof.
  unfold coerce_column. rewrite !map_map, mapM_map. reflexivity.
Qed.




(** One round of the loop of lines 68-80. *)
Lemma coerce_numeric_present (l : cell) (cols : list cell) (df : frame)
  (col : list cell) :
  get_col l df = Ok col ->
  coerce_numeric (l :: cols) df
  = match coerce_column col with
    | Ok xs => coerce_numeric cols (set_col l (map CNum xs) df)
    | Raise e => ([], Raise e)
    end.
Proof.
  intros H. simpl.
  assert (Hhas : has_col l df = true).
  { apply has_col_index. unfold get_col in H.
    destruct (index_of l (columns df)) as [i|]; [now exists i|discriminate]. }
  rewrite Hhas, H. reflexivity.
Qed.


Lemma get_col_has_col (l : cell) (df : frame) (col : list cell) :
  get_col l df = Ok col -> has_col l df = true.
Proof.
  unfold get_col. intros H. apply has_col_index.
  destruct (index_of l (columns df)) as [i|]; [now exists i|discriminate].
Qed.

(** Writing a text-labelled column leaves the other text-labelled columns
    as they are. *)
Lemma get_col_after_set (s t : pystr) (vs : list cell) (df : frame) :
  s <> t ->
  has_col (CStr s) df = true ->
  length vs = length (rows df) ->
  get_col (CStr t) (set_col (CStr s) vs df) = get_col (CStr t) df.
Proof.
  intros Hne Hs Hlen. apply has_col_index in Hs. destruct Hs as [i Hi].
  destruct (index_of (CStr t) (columns df)) as [j|] eqn:Hj.
  - eapply get_col_set_col_other; try eassumption.
    apply index_of_nth in Hj. apply cell_eqb_str in Hj. rewrite Hj.
    destruct (cell_eqb (CStr s) (CStr t)) eqn:E; [|reflexivity].
    apply cell_eqb_str in E. congruence.
  - unfold get_col. rewrite (columns_set_col_present _ vs _ _ Hi), Hj.
    reflexivity.
Qed.

Lemma coerce_numeric_ok (cols : list cell) :
  NoDup cols -> text_labels cols ->
  forall df log df',
    coerce_numeric cols df = (log, Ok df') ->
    (forall l col, In l cols -> get_col l df = Ok col ->
       exists xs, mapM coerce_value col = Ok xs
                  /\ get_col l df' = Ok (map CNum xs))
    /\ (forall s col, ~ In (CStr s) cols -> get_col (CStr s) df = Ok col ->
          get_col (CStr s) df' = Ok col).
Proof.
  induction cols as [|h cols IH]; intros Hnd Htxt df log df' Hrun.
  - simpl in Hrun. injection Hrun as _ <-. split; [intros l col []|auto].
  - destruct (Htxt h (or_introl eq_refl)) as [sh ->].
    inversion Hnd as [|h' cols' Hnotin Hnd']; subst.
    assert (Htxt' : text_labels cols) by (intros l Hl; apply Htxt; now right).
    destruct (has_col (CStr sh) df) eqn:Hhas.
    + destruct (proj1 (has_col_index _ _) Hhas) as [i Hi].
      assert (Hget : get_col (CStr sh) df
                     = Ok (map (fun r => nth i r missing) (rows df))).
      { unfold get_col. now rewrite Hi. }
      rewrite (coerce_numeric_present _ cols _ _ Hget) in Hrun.
      destruct (coerce_column (map (fun r => nth i r missing) (rows df)))
        as [xs|e] eqn:Hco; [|discriminate].
      assert (Hlen : length (map CNum xs) = length (rows df)).
      { rewrite coerce_column_by_value in Hco. apply mapM_length in Hco.
        rewrite !length_map in *. assumption. }
      destruct (IH Hnd' Htxt' _ _ _ Hrun) as [IH1 IH2]. split.
      * intros l col [<-|Hin] Hl.
        -- exists xs. split.
           ++ rewrite <- coerce_column_by_value. congruence.
           ++ apply IH2; [assumption|].
              eapply get_col_set_col_same; eassumption.
        -- destruct (Htxt' l Hin) as [t ->].
           apply IH1; [assumption|].
           rewrite get_col_after_set; try assumption.
           intros ->. contradiction.
      * intros s col Hnot Hs.
        apply IH2; [intros Hin; apply Hnot; now right|].
        rewrite get_col_after_set; try assumption.
        intros ->. apply Hnot. now left.
    + simpl in Hrun. rewrite Hhas in Hrun.
      destruct (coerce_numeric cols df) as [log0 r] eqn:Hrest.
      injection Hrun as _ ->.
      destruct (IH Hnd' Htxt' _ _ _ Hrest) as [IH1 IH2]. split.
      * intros l col [<-|Hin] Hl.
        -- apply get_col_has_col in Hl. congruence.
        -- now apply IH1.
      * intros s col Hnot Hs. apply IH2; [|assumption].
        intros Hin; apply Hnot; now right.
Qed.



Lemma numeric_columns_distinct : NoDup numeric_columns.
Proof.
  unfold numeric_columns. constructor.
  - intros [H|[]]. discriminate.
  - constructor; [intros []|constructor].
Qed.

Lemma numeric_columns_text : text_labels numeric_columns.
Proof.
  intros l [<-|[<-|[]]]; eexists; reflexivity.
Qed.

(** The combiner is the coercion loop run on the forward-filled table. *)
Lemma table_combiner_coerce (tables : list frame) (df : frame) :
  (c <- concat tables ;; ffill_job_no (dropna_all c)) = Ok df ->
  table_combiner tables = coerce_numeric numeric_columns df.
Proof. intros H. unfold table_combiner. rewrite H. reflexivity. Qed.

End Coercion.



(** ** The ASCII tables satisfy the laws *)

Lemma is_space_range (c : N) :
  is_space c = true -> (c <= 32 \/ 133 <= c)%N.
Proof.
  unfold is_space. intros H.
  destruct (N.le_gt_cases c 32) as [?|?]; [now left|].
  destruct (N.le_gt_cases 133 c) as [?|?]; [now right|].
  exfalso.
  repeat match type of H with
         | context [(?a <=? ?b)%N] => destruct (N.leb_spec a b); try lia
         | context [(?a =? ?b)%N] => destruct (N.eqb_spec a b); try lia
         end;
    simpl in H; discriminate.
Qed.

Lemma ascii_lower_fixed (c : N) :
  (c < 65 \/ 90 < c)%N -> ascii_lower c = [c].
Proof.
  intros H. unfold ascii_lower.
  destruct (N.leb_spec 65 c); destruct (N.leb_spec c 90); simpl;
    try reflexivity; lia.
Qed.

Lemma ascii_lower_cases (c : N) :
  ascii_lower c = [c] \/ ((65 <= c <= 90)%N /\ ascii_lower c = [(c + 32)%N]).
Proof.
  unfold ascii_lower.
  destruct (N.leb_spec 65 c); destruct (N.leb_spec c 90); simpl; auto.
Qed.

Lemma is_space_letter (c : N) : (97 <= c <= 122)%N -> is_space c = false.
Proof.
  intros H. destruct (is_space c) eqn:E; [|reflexivity].
  apply is_space_range in E. lia.
Qed.

Lemma ascii_tables_laws : UnicodeLaws ascii_tables.
Proof.
  constructor; simpl.
  - intros c H. apply is_space_range in H. apply ascii_lower_fixed. lia.
  - intros c H. destruct (ascii_lower_cases c) as [E|[Hr E]]; rewrite E.
    + split; [discriminate|]. intros d [<-|[]]. assumption.
    + split; [discriminate|]. intros d [<-|[]]. apply is_space_letter. lia.
  - intros c d Hd. destruct (ascii_lower_cases c) as [E|[Hr E]];
      rewrite E in Hd; destruct Hd as [<-|[]].
    + destruct (ascii_lower_cases c) as [E'|[Hr' E']]; [assumption|].
      rewrite E in E'. injection E' as E'. lia.
    + apply ascii_lower_fixed. lia.
  - reflexivity.
Qed.

(** ** What the coercion leaves in a numeric column *)

Lemma Forall2_nth {A B} (R : A -> B -> Prop) (l : list A) (l' : list B)
  (d : A) (d' : B) (i : nat) :
  Forall2 R l l' -> i < length l -> R (nth i l d) (nth i l' d').
Proof.
  intros H. revert i. induction H as [|a b l l' Hab _ IH]; intros i Hi.
  - simpl in Hi. lia.
  - destruct i as [|i]; simpl; [assumption|]. apply IH. simpl in Hi. lia.
Qed.

Lemma isna_missing (c : cell) : isna c = true -> c = missing.
Proof.
  destruct c as [s|x]; simpl; [discriminate|].
  destruct x; simpl; try discriminate. reflexivity.
Qed.

Lemma float_of_str_zero {U : UnicodeData} {L : UnicodeLaws U} :
  float_of_str (py "0") = Some zero.
Proof.
  unfold float_of_str, absfloat, number, digitpart. simpl.
  rewrite ascii_digits by reflexivity. reflexivity.
Qed.

(** A blank text cell is read as 0.0. *)
Lemma coerce_value_blank {U : UnicodeData} {L : UnicodeLaws U} (s : pystr) :
  strip (remove_char nbsp (remove_char comma s)) = [] ->
  coerce_value (CStr s) = Ok zero.
Proof.
  intros H. unfold coerce_value, cleanup. simpl. rewrite H. simpl.
  change [48%N] with (py "0"). now rewrite float_of_str_zero.
Qed.

Lemma sample_combined :
  (c0 <- concat [sheet_a; sheet_b] ;; ffill_job_no (dropna_all c0))
  = Ok shipments.
Proof. reflexivity. Qed.

Lemma sample_typed :
  @table_combiner ascii_tables [sheet_a; sheet_b] = ([], Ok shipments_typed).
Proof. vm_compute. reflexivity. Qed.

(** C2, as written, fails: the empty quantity cell of sheet A is [NaN]
    after the combiner, not 0.0. *)
Lemma missing_cell_is_not_zeroed : ~ @missing_coerced_to_zero ascii_tables.
Proof.
  intros H.
  destruct (H [sheet_a; sheet_b] shipments [] shipments_typed quantity_mt
              [txt "1,234.50"; missing; CStr (nbsp :: py "500")]
              [CNum (of_binary 2469 (-1)); CNum nan; CNum (of_binary 500 0)]
              sample_combined sample_typed (or_introl eq_refl)
              eq_refl eq_refl) as [_ H1].
  assert (Hlt : 1 < 3) by lia.
  specialize (H1 1 Hlt eq_refl). discriminate H1.
Qed.

(** C2, amended.  After the combiner a numeric column holds numbers only.
    A cell that was missing is still missing ([NaN]); a text cell that is
    empty once commas and no-break spaces are removed and it is trimmed is
    exactly 0.0. *)
Theorem numeric_columns_after_combiner {U : UnicodeData} {L : UnicodeLaws U}
  (tables : list frame) (c : frame) (log : list msg) (df : frame) (l : cell)
  (col : list cell) :
  (c0 <- concat tables ;; ffill_job_no (dropna_all c0)) = Ok c ->
  table_combiner tables = (log, Ok df) ->
  In l numeric_columns ->
  get_col l c = Ok col ->
  exists xs,
    get_col l df = Ok (map CNum xs)
    /\ length xs = length col
    /\ forall i, i < length col ->
         (isna (nth i col missing) = true -> nth i xs zero = nan)
         /\ (forall s, nth i col missing = CStr s ->
               strip (remove_char nbsp (remove_char comma s)) = [] ->
               nth i xs zero = zero).
Proof.
  intros Hc Hrun Hl Hcol.
  rewrite (table_combiner_coerce tables c Hc) in Hrun.
  destruct (coerce_numeric_ok numeric_columns numeric_columns_distinct
              numeric_columns_text c log df Hrun) as [H1 _].
  destruct (H1 l col Hl Hcol) as [xs [Hxs Hdf]].
  exists xs. split; [assumption|].
  split; [eapply mapM_length; eassumption|].
  intros i Hi. apply mapM_Ok_Forall2 in Hxs.
  pose proof (Forall2_nth _ col xs missing zero i Hxs Hi) as Hv.
  simpl in Hv. split.
  - intros Hna. apply isna_missing in Hna. rewrite Hna in Hv.
    unfold coerce_value in Hv. simpl in Hv. congruence.
  - intros s Hs Hblank. rewrite Hs, (coerce_value_blank s Hblank) in Hv.
    congruence.
Qed.

Lemma numeric_columns_after_combiner_witness :
  (c0 <- concat [sheet_a; sheet_b] ;; ffill_job_no (dropna_all c0))
  = Ok shipments
  /\ @table_combiner ascii_tables [sheet_a; sheet_b]
     = ([], Ok shipments_typed)
  /\ In invoice_amount numeric_columns
  /\ get_col invoice_amount shipments = Ok [CNum one; txt " "; txt "2"]
  /\ exists xs,
       get_col invoice_amount shipments_typed = Ok (map CNum xs)
       /\ length xs = 3
       /\ forall i, i < 3 ->
            (isna (nth i [CNum one; txt " "; txt "2"] missing) = true ->
             nth i xs zero = nan)
            /\ (forall s, nth i [CNum one; txt " "; txt "2"] missing = CStr s ->
                  strip (remove_char nbsp (remove_char comma s)) = [] ->
                  nth i xs zero = zero).
Proof.
  split; [exact sample_combined|]. split; [exact sample_typed|].
  split; [right; left; reflexivity|]. split; [reflexivity|].
  exact (@numeric_columns_after_combiner ascii_tables ascii_tables_laws
           [sheet_a; sheet_b] shipments [] shipments_typed invoice_amount
           [CNum one; txt " "; txt "2"]
           sample_combined sample_typed (or_intror (or_introl eq_refl))
           eq_refl).
Defined.

(** ** Forward fill *)


(** Where a filled value comes from: a present value is kept; a missing one
    takes the value of the nearest row above that has one, or [last] when
    no row above has one. *)
Lemma ffill_from_nth (col : list cell) :
  forall last i, i < length col ->
    (isna (nth i col missing) = false ->
     nth i (ffill_from last col) missing = nth i col missing)
    /\ (isna (nth i col missing) = true ->
        (exists j, j < i /\ isna (nth j col missing) = false
                   /\ (forall k, j < k <= i -> isna (nth k col missing) = true)
                   /\ nth i (ffill_from last col) missing = nth j col missing)
        \/ ((forall k, k <= i -> isna (nth k col missing) = true)
            /\ nth i (ffill_from last col) missing = last)).
Proof.
  induction col as [|c col IH]; intros last i Hi; [simpl in Hi; lia|].
  destruct i as [|i].
  - simpl. destruct (isna c) eqn:Hc; simpl; split; try discriminate; auto.
    intros _. right. split; [|reflexivity].
    intros k Hk. replace k with 0 by lia. exact Hc.
  - assert (Hi' : i < length col) by (simpl in Hi; lia).
    assert (Hstep : nth (S i) (ffill_from last (c :: col)) missing
                    = nth i (ffill_from (if isna c then last else c) col)
                          missing).
    { simpl. destruct (isna c); reflexivity. }
    rewrite Hstep.
    destruct (IH (if isna c then last else c) i Hi') as [IHp IHm].
    change (nth (S i) (c :: col) missing) with (nth i col missing).
    split; [exact IHp|].
    intros Hna. destruct (IHm Hna) as [[j [Hj [Hjv [Hgap Hval]]]]|[Hall Hval]].
    + left. exists (S j). split; [lia|]. split; [exact Hjv|].
      split; [|exact Hval].
      intros k Hk. destruct k as [|k]; [lia|]. apply Hgap. lia.
    + destruct (isna c) eqn:Hc.
      * right. split; [|exact Hval].
        intros k Hk. destruct k as [|k]; [exact Hc|]. apply Hall. lia.
      * left. exists 0. split; [lia|]. split; [exact Hc|].
        split; [|exact Hval].
        intros k Hk. destruct k as [|k]; [lia|]. apply Hall. lia.
Qed.



(** ** SheetNormalizer *)

Lemma feqb_refl (x : float) : is_nan x = false -> feqb x x = true.
Proof.
  unfold feqb, SFeqb. destruct x as [s|s| |s m e]; simpl;
    try discriminate; intros _.
  - reflexivity.
  - destruct s; reflexivity.
  - destruct s; rewrite Z.compare_refl, Pos.compare_cont_refl; reflexivity.
Qed.

Lemma cell_eqb_refl (c : cell) : cell_eqb c c = true.
Proof.
  destruct c as [s|x]; simpl.
  - unfold PyStr.eqb. destruct (list_eq_dec N.eq_dec s s); congruence.
  - destruct (is_nan x) eqn:E; simpl.
    + apply orb_true_r.
    + rewrite feqb_refl by assumption. reflexivity.
Qed.

Lemma select_by_all {A} (mask : list bool) (r : list A) :
  (forall b, In b mask -> b = true) -> length r <= length mask ->
  select_by mask r = r.
Proof.
  revert r. induction mask as [|b mask IH]; intros r Hall Hlen.
  - destruct r; [reflexivity|simpl in Hlen; lia].
  - destruct r as [|a r]; [reflexivity|]. simpl.
    rewrite (Hall b (or_introl eq_refl)). f_equal.
    apply IH; [intros; apply Hall; now right|simpl in Hlen; lia].
Qed.

(** When no other column shares the first label, dropping the first label
    drops the first cell of every row. *)
Lemma drop_label_first (l0 : cell) (ls : list cell) (rs : list (list cell)) :
  existsb (cell_eqb l0) ls = false ->
  Forall (fun r => length r = length (l0 :: ls)) rs ->
  drop_label l0 {| columns := l0 :: ls; rows := rs |}
  = {| columns := ls; rows := map (@tl cell) rs |}.
Proof.
  intros Huniq Hrect. unfold drop_label. simpl.
  rewrite cell_eqb_refl. simpl.
  assert (Hmask : forall b, In b (map (fun c => negb (cell_eqb l0 c)) ls) ->
                            b = true).
  { intros b Hb. apply in_map_iff in Hb. destruct Hb as [c [<- Hc]].
    destruct (cell_eqb l0 c) eqn:E; [|reflexivity].
    assert (existsb (cell_eqb l0) ls = true)
      by (apply existsb_exists; now exists c).
    congruence. }
  f_equal.
  - apply select_by_all; [assumption|]. now rewrite length_map.
  - apply map_ext_in. intros r Hr.
    rewrite Forall_forall in Hrect. specialize (Hrect r Hr).
    destruct r as [|a r]; [reflexivity|]. simpl.
    apply select_by_all; [assumption|].
    rewrite length_map. simpl in Hrect. lia.
Qed.

Lemma columns_add_client (sheet : pystr) (df : frame) :
  columns (add_client sheet df)
  = if has_col client df then columns df else columns df ++ [client].
Proof.
  unfold add_client, set_col. fold client.
  destruct (has_col client df) eqn:H.
  - apply has_col_index in H. destruct H as [i Hi]. now rewrite Hi.
  - destruct (index_of client (columns df)) as [i|] eqn:Hi; [|reflexivity].
    assert (has_col client df = true) by (apply has_col_index; now exists i).
    congruence.
Qed.

(** On a frame with a first label no other column shares, at least two
    rows and every row as long as the labels, lines 28-35 strip the first
    column and the first two rows and make the second row, without its
    first cell, the column names. *)
Lemma strip_and_promote_frame (df : frame)
  (l0 : cell) (ls : list cell) (r0 r1 : list cell) (rest : list (list cell)) :
  columns df = l0 :: ls ->
  existsb (cell_eqb l0) ls = false ->
  rows df = r0 :: r1 :: rest ->
  Forall (fun r => length r = length (columns df)) (rows df) ->
  strip_and_promote df
  = Ok {| columns := tl r1; rows := map (@tl cell) rest |}.
Proof.
  intros Hcols Huniq Hrows Hrect.
  unfold strip_and_promote, drop_first_column. rewrite Hcols. simpl.
  replace df with {| columns := l0 :: ls; rows := r0 :: r1 :: rest |}
    by (destruct df; simpl in *; congruence).
  rewrite drop_label_first; [reflexivity|assumption|].
  simpl in *. rewrite Hrows, Hcols in Hrect. exact Hrect.
Qed.

Lemma keep_line_wide (line : list cell) :
  2 <= length line -> keep_line line = true.
Proof.
  destruct line as [|a [|b line]]; simpl; intros H; try lia.
  now destruct a.
Qed.

(** The header promotion takes its names from a row of the frame. *)
Lemma promoted_names (df t : frame) :
  strip_and_promote df = Ok t ->
  exists mask r0 r1 rest,
    rows df = r0 :: r1 :: rest /\ columns t = select_by mask r1.
Proof.
  unfold strip_and_promote, drop_first_column.
  destruct (columns df) as [|l0 ls] eqn:Hc; [discriminate|].
  unfold drop_label, drop_row0, promote_header, iloc0. rewrite Hc.
  cbn [bind rows columns].
  destruct (rows df) as [|r0 [|r1 rest]]; cbn [map bind rows columns];
    try discriminate.
  intros H. injection H as <-.
  exists (map (fun c => negb (cell_eqb l0 c)) (l0 :: ls)), r0, r1, rest.
  split; reflexivity.
Qed.

Lemma append_client (v : cell) (rs : list (list cell)) :
  map (fun rv : list cell * cell => fst rv ++ [snd rv])
      (combine rs (repeat v (length rs)))
  = map (fun r => r ++ [v]) rs.
Proof. induction rs as [|r rs IH]; simpl; [reflexivity|]. now rewrite IH. Qed.

(** The specification counts the rows that go from the grid of the sheet;
    the reader has already taken the first line of the grid for the labels
    when the normaliser drops a row and promotes the next.  On the sample
    grid the names are those of the third line, and no choice of labels by
    the reader makes them those of the second. *)
Lemma third_line_is_promoted :
  (~ exists header_names, second_line_is_header header_names report_grid)
  /\ strip_and_promote (read_excel (fun h => h) report_grid)
     = Ok {| columns := [txt "Job No"; txt "Quantity/MT"];
             rows := [ [txt "3.07.1"; txt "1,000"];
                       [missing; txt "500"] ] |}.
Proof.
  split; [|reflexivity].
  intros [hn [l1 [l2 [rest [Hg H]]]]].
  unfold report_grid in Hg. injection Hg as <- <- <-.
  destruct (promoted_names _ _ H) as [mask [r0 [r1 [rest' [Hrows Hcols]]]]].
  unfold read_excel in Hrows.
  change (filter keep_line report_grid) with report_grid in Hrows.
  unfold report_grid in Hrows. cbn [rows] in Hrows.
  injection Hrows as <- <- <-. cbn [columns tl] in Hcols.
  destruct mask as [|[|] [|[|] [|[|] mask]]]; cbv in Hcols;
    try discriminate; destruct mask; discriminate.
Qed.

(** C6.  The grid of a sheet is at least two cells wide and three lines
    long, and the reader gives its first column a label no other column
    has.  The reader takes the first line for the labels; the normaliser
    strips the first column, drops the second line and promotes the third:
    of the grid, exactly the first column and the first three lines are
    stripped, and the third line, without its first cell, gives the column
    names.  The lines that are left lose their all-empty ones and get the
    client column. *)
Theorem normalizer_strips_three_lines
  (header_names : list cell -> list cell) (sheet : pystr)
  (l1 l2 l3 : list cell) (rest : list (list cell))
  (n0 : cell) (ns : list cell) :
  2 <= length l1 ->
  Forall (fun line => length line = length l1) (l2 :: l3 :: rest) ->
  header_names l1 = n0 :: ns ->
  length (n0 :: ns) = length l1 ->
  existsb (cell_eqb n0) ns = false ->
  read_excel header_names (l1 :: l2 :: l3 :: rest)
  = {| columns := n0 :: ns; rows := l2 :: l3 :: rest |}
  /\ strip_and_promote (read_excel header_names (l1 :: l2 :: l3 :: rest))
     = Ok {| columns := tl l3; rows := map (@tl cell) rest |}
  /\ read_and_normalize header_names sheet (l1 :: l2 :: l3 :: rest)
     = Ok (add_client sheet
             (dropna_all {| columns := tl l3; rows := map (@tl cell) rest |}))
  /\ (existsb (cell_eqb client) (tl l3) = false ->
      read_and_normalize header_names sheet (l1 :: l2 :: l3 :: rest)
      = Ok {| columns := tl l3 ++ [client];
              rows := map (fun r => r ++ [CStr sheet])
                          (filter (fun r => existsb (fun c => negb (isna c)) r)
                                  (map (@tl cell) rest)) |})
  /\ read_and_normalize (fun h => h) (py "A") report_grid
     = Ok {| columns := [txt "Job No"; txt "Quantity/MT"; client];
             rows := [ [txt "3.07.1"; txt "1,000"; txt "A"];
                       [missing; txt "500"; txt "A"] ] |}.
Proof.
  intros Hwide Hrect Hnames Hlen Huniq.
  assert (Hread : read_excel header_names (l1 :: l2 :: l3 :: rest)
                  = {| columns := n0 :: ns; rows := l2 :: l3 :: rest |}).
  { unfold read_excel.
    assert (Hkeep : filter keep_line (l1 :: l2 :: l3 :: rest)
                    = l1 :: l2 :: l3 :: rest).
    { apply filter_all. intros line [<-|Hin].
      - now apply keep_line_wide.
      - apply keep_line_wide. rewrite Forall_forall in Hrect.
        now rewrite (Hrect line Hin). }
    rewrite Hkeep, Hnames. reflexivity. }
  assert (Hstrip :
    strip_and_promote (read_excel header_names (l1 :: l2 :: l3 :: rest))
    = Ok {| columns := tl l3; rows := map (@tl cell) rest |}).
  { rewrite Hread.
    apply (strip_and_promote_frame _ n0 ns l2 l3 rest);
      [reflexivity|assumption|reflexivity|].
    cbn [rows columns]. rewrite Hlen. exact Hrect. }
  assert (Hnorm :
    read_and_normalize header_names sheet (l1 :: l2 :: l3 :: rest)
    = Ok (add_client sheet
            (dropna_all {| columns := tl l3;
                           rows := map (@tl cell) rest |}))).
  { unfold read_and_normalize, normalize_sheet. rewrite Hstrip. reflexivity. }
  split; [exact Hread|]. split; [exact Hstrip|]. split; [exact Hnorm|].
  split; [|reflexivity].
  intros Hclient. rewrite Hnorm. f_equal.
  unfold add_client, set_col, dropna_all. cbn [columns rows]. fold client.
  destruct (index_of client (tl l3)) as [i|] eqn:Hi.
  - assert (Hhas : has_col client {| columns := tl l3; rows := [] |} = true)
      by (apply has_col_index; now exists i).
    unfold has_col in Hhas. cbn [columns] in Hhas. congruence.
  - now rewrite append_client.
Qed.

Lemma normalizer_strips_three_lines_witness :
  2 <= length [txt "Report"; txt "2024"; txt "Q1"]
  /\ existsb (cell_eqb (txt "Report")) [txt "2024"; txt "Q1"] = false
  /\ strip_and_promote (read_excel (fun h => h) report_grid)
     = Ok {| columns := [txt "Job No"; txt "Quantity/MT"];
             rows := [ [txt "3.07.1"; txt "1,000"];
                       [missing; txt "500"] ] |}.
Proof.
  split; [simpl; lia|]. split; [reflexivity|].
  refine (proj1 (proj2 (normalizer_strips_three_lines (fun h => h) (py "A")
                   [txt "Report"; txt "2024"; txt "Q1"]
                   [txt "No"; txt "a"; txt "b"]
                   [missing; txt "Job No"; txt "Quantity/MT"]
                   [ [txt "x"; txt "3.07.1"; txt "1,000"];
                     [txt "y"; missing; txt "500"] ]
                   (txt "Report") [txt "2024"; txt "Q1"]
                   _ _ eq_refl eq_refl eq_refl))).
  - simpl. lia.
  - repeat constructor.
Defined.

(** ** The loop over the sheets *)


Lemma process_sheets_failed (sheet : pystr) (df : frame) (e : exn)
  (rest : list (pystr * frame)) (data : list (pystr * frame)) :
  normalize_sheet sheet df = Raise e ->
  process_sheets ((sheet, df) :: rest) data
  = (fst (process_sheets rest data),
     SheetError sheet e :: snd (process_sheets rest data)).
Proof.
  intros H. simpl. rewrite H. destruct (process_sheets rest data).
  reflexivity.
Qed.

(** ** ColumnNameCleaner *)

Lemma head_ok_lstrip (s : pystr) : head_ok (lstrip s) = true.
Proof.
  induction s as [|c s IH]; simpl; [reflexivity|].
  destruct (is_space c) eqn:E; [assumption|]. simpl. now rewrite E.
Qed.

Lemma lstrip_head_ok (s : pystr) : head_ok s = true -> lstrip s = s.
Proof.
  destruct s as [|c s]; simpl; [reflexivity|].
  destruct (is_space c); [discriminate|reflexivity].
Qed.

Lemma lstrip_snoc (a : pystr) (c : N) :
  is_space c = false -> exists w, lstrip (a ++ [c]) = w ++ [c].
Proof.
  intros Hc. induction a as [|x a IH]; simpl.
  - rewrite Hc. now exists [].
  - destruct (is_space x); [assumption|]. now exists (x :: a).
Qed.

Lemma strip_trimmed (s : pystr) : trimmed s -> strip s = s.
Proof.
  intros [H1 H2]. unfold strip, rstrip.
  rewrite (lstrip_head_ok s H1), (lstrip_head_ok (rev s) H2).
  apply rev_involutive.
Qed.

Lemma trimmed_strip (s : pystr) : trimmed (strip s).
Proof.
  unfold strip, rstrip. split.
  - pose proof (head_ok_lstrip s) as H.
    destruct (lstrip s) as [|c l]; [reflexivity|].
    simpl in H. apply negb_true_iff in H.
    simpl rev. destruct (lstrip_snoc (rev l) c H) as [w ->].
    rewrite rev_app_distr. simpl. now rewrite H.
  - rewrite rev_involutive. apply head_ok_lstrip.
Qed.

Lemma head_ok_flat_map (g : N -> list N) (s : pystr) :
  (forall c, is_space c = false ->
     g c <> [] /\ forall d, In d (g c) -> is_space d = false) ->
  head_ok s = true -> head_ok (flat_map g s) = true.
Proof.
  intros Hg. destruct s as [|c s]; simpl; [reflexivity|].
  intros Hc. apply negb_true_iff in Hc. destruct (Hg c Hc) as [Hne Hall].
  destruct (g c) as [|d ds]; [congruence|]. simpl.
  rewrite (Hall d (or_introl eq_refl)). reflexivity.
Qed.

Lemma rev_flat_map {A B} (f : A -> list B) (l : list A) :
  rev (flat_map f l) = flat_map (fun a => rev (f a)) (rev l).
Proof.
  induction l as [|a l IH]; simpl; [reflexivity|].
  rewrite rev_app_distr, IH, flat_map_app. simpl. now rewrite app_nil_r.
Qed.

Lemma is_space_32 : is_space 32 = true.
Proof. reflexivity. Qed.

Lemma collapse_from_idem (s : pystr) :
  forall b, collapse_from b (collapse_from b s) = collapse_from b s.
Proof.
  induction s as [|c s IH]; intros b; simpl; [reflexivity|].
  destruct (is_space c) eqn:E.
  - destruct b; [apply IH|]. simpl. rewrite IH. reflexivity.
  - simpl. rewrite E, IH. reflexivity.
Qed.

Lemma collapse_from_snoc (s : pystr) (c : N) :
  is_space c = false ->
  forall b, collapse_from b (s ++ [c]) = collapse_from b s ++ [c].
Proof.
  intros Hc. induction s as [|x s IH]; intros b; simpl.
  - now rewrite Hc.
  - destruct (is_space x); [destruct b|]; rewrite IH; reflexivity.
Qed.

Lemma In_collapse_from (s : pystr) (d : N) :
  forall b, In d (collapse_from b s) -> d = 32%N \/ In d s.
Proof.
  induction s as [|c s IH]; intros b; simpl; [tauto|].
  destruct (is_space c); [destruct b|]; simpl; intros H.
  - destruct (IH _ H); auto.
  - destruct H as [<-|H]; [now left|]. destruct (IH _ H); auto.
  - destruct H as [<-|H]; [auto|]. destruct (IH _ H); auto.
Qed.

Lemma trimmed_collapse (s : pystr) :
  trimmed s -> trimmed (collapse_spaces s).
Proof.
  intros [H1 H2]. unfold collapse_spaces. split.
  - destruct s as [|c s]; [reflexivity|]. simpl in *.
    apply negb_true_iff in H1. rewrite H1. simpl. now rewrite H1.
  - destruct (rev s) as [|c r] eqn:E.
    + assert (s = []) as -> by (rewrite <- (rev_involutive s), E; reflexivity).
      reflexivity.
    + assert (s = rev r ++ [c]) as ->
        by (rewrite <- (rev_involutive s), E; reflexivity).
      simpl in H2. apply negb_true_iff in H2.
      rewrite collapse_from_snoc by assumption.
      rewrite rev_app_distr. simpl. now rewrite H2.
Qed.

Section Cleaner.
Context {U : UnicodeData} {L : UnicodeLaws U}.

Lemma trimmed_lower (s : pystr) : trimmed s -> trimmed (lower s).
Proof.
  intros [H1 H2]. unfold lower. split.
  - apply head_ok_flat_map; [exact lower_nonspace|assumption].
  - rewrite rev_flat_map. apply head_ok_flat_map; [|assumption].
    intros c Hc. destruct (lower_nonspace c Hc) as [Hne Hall]. split.
    + intros E. apply Hne. rewrite <- (rev_involutive (to_lower c)), E.
      reflexivity.
    + intros d Hd. apply Hall. now apply in_rev.
Qed.

Lemma lower_fixed (s : pystr) :
  (forall d, In d s -> to_lower d = [d]) -> lower s = s.
Proof.
  unfold lower. induction s as [|c s IH]; simpl; intros H; [reflexivity|].
  rewrite (H c (or_introl eq_refl)). simpl. f_equal.
  apply IH. intros d Hd. apply H. now right.
Qed.

Lemma lower_collapse_lower (s : pystr) :
  lower (collapse_spaces (lower s)) = collapse_spaces (lower s).
Proof.
  apply lower_fixed. intros d Hd.
  apply In_collapse_from in Hd. destruct Hd as [->|Hd].
  - apply lower_space. reflexivity.
  - unfold lower in Hd. apply in_flat_map in Hd.
    destruct Hd as [c [_ Hc]]. eapply lower_stable; eassumption.
Qed.

Lemma clean_name_idem (s : pystr) :
  clean_name (clean_name s) = clean_name s.
Proof.
  unfold clean_name.
  rewrite strip_trimmed.
  - rewrite lower_collapse_lower. apply collapse_from_idem.
  - apply trimmed_collapse, trimmed_lower, trimmed_strip.
Qed.

Lemma clean_label_idem (l : cell) :
  clean_label (clean_label l) = clean_label l.
Proof.
  destruct l as [s|x]; simpl; [|reflexivity].
  now rewrite clean_name_idem.
Qed.

End Cleaner.

(** C8.  Cleaning the column names of a table twice gives the names that
    cleaning once gives, and the cells are those of the table. *)
Theorem column_name_cleaner_idempotent {U : UnicodeData} {L : UnicodeLaws U}
  (df : frame) :
  clean_columns (clean_columns df) = clean_columns df
  /\ rows (clean_columns df) = rows df.
Proof.
  split; [|reflexivity].
  unfold clean_columns. simpl. f_equal.
  rewrite map_map. apply map_ext. intros l. apply clean_label_idem.
Qed.

Lemma column_name_cleaner_idempotent_witness :
  @clean_columns ascii_tables
    {| columns := [txt "  Job   No "; CNum one; txt "client"];
       rows := [[txt "3.07.1"; txt "x"; txt "A"]] |}
  = {| columns := [txt "job no"; missing; txt "client"];
       rows := [[txt "3.07.1"; txt "x"; txt "A"]] |}
  /\ @clean_columns ascii_tables
       (@clean_columns ascii_tables
          {| columns := [txt "  Job   No "; CNum one; txt "client"];
             rows := [[txt "3.07.1"; txt "x"; txt "A"]] |})
     = @clean_columns ascii_tables
         {| columns := [txt "  Job   No "; CNum one; txt "client"];
            rows := [[txt "3.07.1"; txt "x"; txt "A"]] |}.
Proof.
  split; [reflexivity|].
  exact (proj1 (@column_name_cleaner_idempotent ascii_tables
                  ascii_tables_laws
                  {| columns := [txt "  Job   No "; CNum one; txt "client"];
                     rows := [[txt "3.07.1"; txt "x"; txt "A"]] |})).
Defined.

(** ** Aggregator: the summary by client and currency *)

Lemma sample_offsetting :
  @table_combiner ascii_tables [offsetting_sheet] = ([], Ok offsetting_typed).
Proof. vm_compute. reflexivity. Qed.

(** C5, as written, fails: the group (A, USD) of the table whose amounts
    are inf and -inf has a currency that is not blank, and the summary is
    empty. *)
Lemma group_with_nan_totals_is_dropped : ~ summary_keeps_all_other_rows.
Proof.
  intros H.
  assert (Hsum : summary offsetting_typed = Ok []) by reflexivity.
  pose (r := {| s_client := txt "A"; s_currency := txt "USD";
                s_quantity := nan; s_invoice := nan |}).
  destruct (H offsetting_typed [] Hsum r) as [_ Hback].
  apply Hback. split; [|reflexivity].
  eexists. split; [reflexivity|]. left. reflexivity.
Qed.

(** C5, amended.  The summary never holds a row of blank currency whose two
    totals are 0, and it holds every other grouped row except a row whose
    two totals are both [NaN]. *)
Theorem summary_excludes_artifacts (df : frame) (recs : list record) :
  records df = Ok recs ->
  exists out,
    summary df = Ok out
    /\ (forall r, In r out ->
          ~ (blank (s_currency r) = true
             /\ feqb (s_quantity r) zero = true
             /\ feqb (s_invoice r) zero = true))
    /\ (forall r, In r out <->
          In r (grouped recs) /\ artifact r = false /\ both_nan r = false).
Proof.
  intros Hrecs. exists (summarize recs).
  split; [unfold summary; rewrite Hrecs; reflexivity|].
  assert (Hchar : forall r, In r (summarize recs) <->
            In r (grouped recs) /\ artifact r = false /\ both_nan r = false).
  { intros r. unfold summarize. rewrite !filter_In, !negb_true_iff. tauto. }
  split; [|exact Hchar].
  intros r Hr [Hb [Hq Hi]]. apply Hchar in Hr. destruct Hr as [_ [Ha _]].
  unfold artifact in Ha. rewrite Hb, Hq, Hi in Ha. discriminate.
Qed.

Lemma summary_excludes_artifacts_witness :
  records shipments_typed
  = Ok [ ((txt "A", txt "USD"), (of_binary 2469 (-1), one));
         ((txt "A", txt "USD"), (nan, zero));
         ((txt "B", missing), (of_binary 500 0, two)) ]
  /\ exists out,
       summary shipments_typed = Ok out
       /\ (forall r, In r out ->
             ~ (blank (s_currency r) = true
                /\ feqb (s_quantity r) zero = true
                /\ feqb (s_invoice r) zero = true))
       /\ (forall r, In r out <->
             In r (grouped
                     [ ((txt "A", txt "USD"), (of_binary 2469 (-1), one));
                       ((txt "A", txt "USD"), (nan, zero));
                       ((txt "B", missing), (of_binary 500 0, two)) ])
             /\ artifact r = false /\ both_nan r = false).
Proof.
  split; [reflexivity|].
  exact (summary_excludes_artifacts shipments_typed _ eq_refl).
Defined.

(** ** Aggregator: the global totals *)

(** C4 at a table that writes one currency as USD and as usd: the totals
    are taken per spelling, both are then labelled USD, the lookup of USD
    returns the two of them instead of one total, and the metric card
    raises [TypeError]. *)
Theorem currency_totals_taken_per_spelling :
  @inv_by_cur ascii_tables two_spellings
  = Ok [(txt "USD", one); (txt "USD", two)]
  /\ series_get (txt "USD") [(txt "USD", one); (txt "USD", two)]
     = SubSeries [one; two]
  /\ @invoice_metric ascii_tables (py "USD") two_spellings = Raise TypeError
  /\ total_qty two_spellings = Ok two
  /\ @invoice_metric ascii_tables (py "EGP") two_spellings = Ok zero.
Proof. repeat split; vm_compute; reflexivity. Qed.

(** ** Rows without a currency *)

Lemma map_fst_combine {A B} (l : list A) (l' : list B) :
  length l = length l' -> map fst (combine l l') = l.
Proof.
  revert l'. induction l as [|a l IH]; intros [|b l'] H; simpl in *;
    try reflexivity; try discriminate.
  f_equal. apply IH. lia.
Qed.

Lemma map_snd_combine {A B} (l : list A) (l' : list B) :
  length l = length l' -> map snd (combine l l') = l'.
Proof.
  revert l'. induction l as [|a l IH]; intros [|b l'] H; simpl in *;
    try reflexivity; try discriminate.
  f_equal. apply IH. lia.
Qed.

Lemma map_pair_combine {A B C} (f : A -> B) (g : A -> C) (l : list A) :
  map (fun a => (f a, g a)) l = combine (map f l) (map g l).
Proof.
  induction l as [|a l IH]; simpl; [reflexivity|]. now rewrite IH.
Qed.

Lemma filter_filter_implied {A} (p q : A -> bool) (l : list A) :
  (forall a, p a = true -> q a = true) ->
  filter p (filter q l) = filter p l.
Proof.
  intros H. induction l as [|a l IH]; simpl; [reflexivity|].
  destruct (q a) eqn:Hq; simpl.
  - destruct (p a); now rewrite IH.
  - destruct (p a) eqn:Hp; [|assumption].
    apply H in Hp. congruence.
Qed.

Lemma filter_map_comm {A B} (f : A -> B) (p : B -> bool) (l : list A) :
  filter p (map f l) = map f (filter (fun a => p (f a)) l).
Proof.
  induction l as [|a l IH]; simpl; [reflexivity|].
  destruct (p (f a)); simpl; now rewrite IH.
Qed.

(** The grouping of the summary does not see the rows without currency. *)
Lemma grouped_has_currency (recs : list record) :
  grouped (filter has_currency recs) = grouped recs.
Proof.
  unfold grouped, record in *. cbv zeta.
  rewrite (@filter_filter_implied (key2 * (float * float))
             (fun r => negb (key2_isna (fst r))) has_currency recs);
    [reflexivity|].
  intros r. unfold key2_isna, has_currency.
  destruct (isna (snd (fst r))); [|reflexivity].
  rewrite orb_true_r. discriminate.
Qed.

(** Nor does the grouping of the invoice totals. *)
Lemma sum_by_currency_has_currency (recs : list (cell * float)) :
  sum_by_currency (filter (fun r => negb (isna (fst r))) recs)
  = sum_by_currency recs.
Proof.
  unfold sum_by_currency. cbv zeta.
  rewrite (filter_filter_implied (fun r => negb (isna (fst r)))
             (fun r => negb (isna (fst r))) recs); [reflexivity|auto].
Qed.

(** The columns behind the records of a table. *)
Lemma records_columns (df : frame) (recs : list record) :
  records df = Ok recs ->
  get_col currency df = Ok (map (fun r => snd (fst r)) recs)
  /\ numeric_col quantity_mt df = Ok (map (fun r => fst (snd r)) recs)
  /\ numeric_col invoice_amount df = Ok (map (fun r => snd (snd r)) recs)
  /\ length recs = length (rows df).
Proof.
  unfold records. intros H.
  destruct (get_col client df) as [cl|] eqn:Hcl; [|discriminate].
  destruct (get_col currency df) as [cu|] eqn:Hcu; [|discriminate].
  destruct (numeric_col quantity_mt df) as [q|] eqn:Hq; [|discriminate].
  destruct (numeric_col invoice_amount df) as [i|] eqn:Hi; [|discriminate].
  simpl in H. injection H as <-.
  apply length_get_col in Hcl, Hcu.
  assert (Lq : length q = length (rows df)).
  { unfold numeric_col in Hq.
    destruct (get_col quantity_mt df) as [c|] eqn:E; [|discriminate].
    simpl in Hq. apply mapM_length in Hq. apply length_get_col in E. lia. }
  assert (Li : length i = length (rows df)).
  { unfold numeric_col in Hi.
    destruct (get_col invoice_amount df) as [c|] eqn:E; [|discriminate].
    simpl in Hi. apply mapM_length in Hi. apply length_get_col in E. lia. }
  assert (LK : length (combine cl cu) = length (combine q i))
    by (rewrite !length_combine; lia).
  repeat split.
  - rewrite <- (map_map fst snd), map_fst_combine by assumption.
    rewrite map_snd_combine by lia. reflexivity.
  - rewrite <- (map_map snd fst), map_snd_combine by assumption.
    rewrite map_fst_combine by lia. reflexivity.
  - rewrite <- (map_map snd snd), map_snd_combine by assumption.
    rewrite map_snd_combine by lia. reflexivity.
  - unfold record. rewrite !length_combine. lia.
Qed.

(** ** Sorting and distinct elements *)

Section Sorting.
Context {A : Type} (leb : A -> A -> bool).
Hypothesis leb_total : forall a b, leb a b = true \/ leb b a = true.

Lemma insert_perm (a : A) (l : list A) : Permutation (insert leb a l) (a :: l).
Proof.
  induction l as [|y l IH]; simpl; [reflexivity|].
  destruct (leb a y); [reflexivity|].
  etransitivity; [apply perm_skip, IH|apply perm_swap].
Qed.

Lemma sort_perm (l : list A) : Permutation (sort leb l) l.
Proof.
  induction l as [|a l IH]; simpl; [reflexivity|].
  etransitivity; [apply insert_perm|]. now apply perm_skip.
Qed.

Lemma In_sort (x : A) (l : list A) : In x (sort leb l) <-> In x l.
Proof.
  split; apply Permutation_in; [|symmetry]; apply sort_perm.
Qed.

Lemma insert_hd (y a : A) (l : list A) :
  leb y a = true -> HdRel (fun a b => leb a b = true) y l -> HdRel (fun a b => leb a b = true) y (insert leb a l).
Proof.
  intros Hya Hl. destruct l as [|z l]; simpl.
  - now constructor.
  - destruct (leb a z); constructor; [assumption|].
    now inversion Hl.
Qed.

Lemma insert_sorted (a : A) (l : list A) :
  Sorted (fun a b => leb a b = true) l -> Sorted (fun a b => leb a b = true) (insert leb a l).
Proof.
  induction l as [|y l IH]; simpl; intros Hs.
  - repeat constructor.
  - inversion Hs as [|y' l' Hl Hhd]; subst.
    destruct (leb a y) eqn:E.
    + constructor; [assumption|]. now constructor.
    + constructor; [now apply IH|].
      apply insert_hd; [|assumption].
      destruct (leb_total a y) as [H|H]; [congruence|exact H].
Qed.

Lemma sort_sorted (l : list A) : Sorted (fun a b => leb a b = true) (sort leb l).
Proof.
  induction l as [|a l IH]; simpl; [constructor|].
  now apply insert_sorted.
Qed.

End Sorting.

Section Uniq.
Context {A : Type} (eqb : A -> A -> bool).
Hypothesis eqb_spec : forall a b, eqb a b = true <-> a = b.

Lemma In_uniq (x : A) (l : list A) : In x (uniq eqb l) <-> In x l.
Proof.
  induction l as [|a l IH]; simpl; [tauto|].
  rewrite filter_In, IH, negb_true_iff.
  destruct (eqb a x) eqn:E.
  - apply eqb_spec in E. subst. split; auto.
  - assert (a <> x) by (intros ->; rewrite (proj2 (eqb_spec x x)) in E;
                        [discriminate|reflexivity]).
    tauto.
Qed.

Lemma NoDup_uniq (l : list A) : NoDup (uniq eqb l).
Proof.
  induction l as [|a l IH]; simpl; constructor.
  - rewrite filter_In, negb_true_iff. intros [_ E].
    rewrite (proj2 (eqb_spec a a)) in E; [discriminate|reflexivity].
  - now apply NoDup_filter.
Qed.

End Uniq.

Lemma pystr_eqb_spec (s t : pystr) : PyStr.eqb s t = true <-> s = t.
Proof.
  unfold PyStr.eqb. destruct (list_eq_dec N.eq_dec s t); split; congruence.
Qed.

Lemma pystr_leb_total (s t : pystr) :
  PyStr.leb s t = true \/ PyStr.leb t s = true.
Proof.
  revert t. induction s as [|c s IH]; intros [|d t]; simpl; auto.
  destruct (N.compare_spec c d) as [->|Hlt|Hgt].
  - rewrite N.eqb_refl, N.ltb_irrefl. simpl. apply IH.
  - left. apply N.ltb_lt in Hlt. now rewrite Hlt.
  - right. apply N.ltb_lt in Hgt. now rewrite Hgt.
Qed.

(** ** The pivot of first job numbers *)

Lemma dict_get_map {V} (f : pystr -> V) (keys : list pystr) (m : pystr) :
  In m keys -> dict_get m (map (fun k => (k, f k)) keys) = Some (f m).
Proof.
  induction keys as [|k keys IH]; simpl; [tauto|].
  destruct (PyStr.eqb m k) eqn:E.
  - apply pystr_eqb_spec in E. now subst.
  - intros [->|H]; [|now apply IH].
    rewrite (proj2 (pystr_eqb_spec m m) eq_refl) in E. discriminate.
Qed.

Lemma max_length_cons {A} (c : list A) (cols : list (list A)) :
  max_length (c :: cols) = Nat.max (length c) (max_length cols).
Proof. reflexivity. Qed.

Lemma max_length_tl {A} (cols : list (list A)) :
  max_length (map (@tl A) cols) = pred (max_length cols).
Proof.
  induction cols as [|c cols IH]; [reflexivity|].
  cbn [map]. rewrite !max_length_cons, IH.
  destruct c; cbn [tl length]; lia.
Qed.

Lemma all_nil_max_length {A} (cols : list (list A)) :
  forallb (fun c => match c with [] => true | _ => false end) cols = true
  <-> max_length cols = 0.
Proof.
  induction cols as [|c cols IH]; [simpl; tauto|].
  cbn [forallb]. rewrite max_length_cons, andb_true_iff, IH.
  destruct c; cbn [length]; split; intros H; lia.
Qed.

Lemma nth_error_tl {A} (c : list A) (i : nat) :
  nth_error (tl c) i = nth_error c (S i).
Proof. destruct c; simpl; [now destruct i|reflexivity]. Qed.

(** Row [i] of [zip_longest] holds the [i]-th element of every column,
    where there is one; there are as many rows as the longest column has
    elements. *)
Lemma zip_longest_rows {A} (cols : list (list A)) :
  zip_longest cols
  = map (fun i => map (fun c => nth_error c i) cols)
        (seq 0 (max_length cols)).
Proof.
  unfold zip_longest.
  assert (H : forall n (cs : list (list A)), max_length cs <= n ->
            zip_longest_upto n cs
            = map (fun i => map (fun c => nth_error c i) cs)
                  (seq 0 (max_length cs))).
  { induction n as [|n IH]; intros cs Hn.
    - replace (max_length cs) with 0 by lia. reflexivity.
    - simpl.
      destruct (forallb (fun c => match c with [] => true | _ => false end)
                        cs) eqn:E.
      + apply all_nil_max_length in E. now rewrite E.
      + assert (Hpos : max_length cs <> 0).
        { intros Hz. apply all_nil_max_length in Hz. congruence. }
        destruct (max_length cs) as [|h] eqn:Eh; [congruence|].
        rewrite IH by (rewrite max_length_tl, Eh; simpl; lia).
        rewrite max_length_tl, Eh. simpl pred.
        change (seq 0 (S h)) with (0 :: seq 1 h).
        rewrite <- seq_shift. cbn [map]. rewrite map_map. f_equal.
        apply map_ext. intros i. rewrite map_map.
        apply map_ext. intros c. apply nth_error_tl. }
  apply H. lia.
Qed.

Lemma length_le_max_length {A} (cols : list (list A)) (c : list A) :
  In c cols -> length c <= max_length cols.
Proof.
  induction cols as [|d cols IH]; [simpl; tauto|].
  rewrite max_length_cons. intros [->|H]; [lia|]. specialize (IH H). lia.
Qed.

Lemma max_length_reached {A} (cols : list (list A)) (i : nat) :
  i < max_length cols -> exists c, In c cols /\ i < length c.
Proof.
  induction cols as [|d cols IH]; [unfold max_length; simpl; lia|].
  rewrite max_length_cons. intros H.
  destruct (Nat.lt_ge_cases i (length d)) as [Hd|Hd].
  - exists d. split; [now left|assumption].
  - destruct IH as [c [Hc Hi]]; [lia|]. exists c. split; [now right|assumption].
Qed.

(** A column read back from the padded rows. *)
Lemma pad_column (c : list cell) (h : nat) :
  length c <= h ->
  map (fun i => of_option (nth_error c i)) (seq 0 h)
  = c ++ repeat missing (h - length c).
Proof.
  revert h. induction c as [|a c IH]; intros h Hh.
  - simpl. rewrite Nat.sub_0_r. clear Hh.
    induction h as [|h IHh]; [reflexivity|].
    change (seq 0 (S h)) with (0 :: seq 1 h).
    rewrite <- seq_shift. cbn [map]. rewrite map_map.
    cbn [repeat nth_error of_option]. f_equal.
    rewrite <- IHh. apply map_ext. intros i. now destruct i.
  - destruct h as [|h]; [simpl in Hh; lia|].
    change (seq 0 (S h)) with (0 :: seq 1 h).
    rewrite <- seq_shift. cbn [map]. rewrite map_map.
    cbn [nth_error of_option app length Nat.sub]. f_equal.
    apply IH. simpl in Hh. lia.
Qed.

Lemma split_on_nonempty (c : N) (s : pystr) : split_on c s <> [].
Proof.
  destruct s as [|d s]; simpl; [discriminate|].
  destruct (d =? c)%N; [discriminate|].
  destruct (split_on c s); discriminate.
Qed.

Lemma length_split_on (c : N) (s : pystr) :
  length (split_on c s) = S (count_char c s).
Proof.
  unfold count_char. induction s as [|d s IH]; simpl; [reflexivity|].
  destruct (d =? c)%N; simpl; [now rewrite IH|].
  destruct (split_on c s) as [|w ws] eqn:E; [simpl in IH; lia|].
  simpl in *. exact IH.
Qed.

(** The first part of a split holds no separator, and what follows the
    separator after it splits into the other parts. *)
Lemma split_on_cons (c : N) (s : pystr) :
  forall w ws, split_on c s = w :: ws ->
    ~ In c w
    /\ match ws with
       | [] => s = w
       | _ :: _ => exists s', s = w ++ c :: s' /\ split_on c s' = ws
       end.
Proof.
  induction s as [|d s IH]; intros w ws H; simpl in H.
  - injection H as <- <-. split; [intros []|reflexivity].
  - destruct (N.eqb_spec d c) as [->|Hne].
    + injection H as <- <-. split; [intros []|].
      destruct (split_on c s) as [|w' ws'] eqn:E.
      * now apply split_on_nonempty in E.
      * exists s. split; [reflexivity|assumption].
    + destruct (split_on c s) as [|w' ws'] eqn:E.
      * now apply split_on_nonempty in E.
      * injection H as <- <-. destruct (IH w' ws' eq_refl) as [Hw Hrest].
        split.
        -- intros [Hd|Hin]; [congruence|contradiction].
        -- destruct ws' as [|w2 ws2].
           ++ now subst.
           ++ destruct Hrest as [s' [-> Hs']]. exists s'.
              split; [reflexivity|assumption].
Qed.

(** A text with exactly two dots is three dot-free segments, and its month
    is the middle one. *)
Lemma two_dots_segments (j : cell) :
  has_two_dots (astype_str j) = true ->
  exists a m b,
    j = CStr (a ++ dot :: m ++ dot :: b)
    /\ ~ In dot a /\ ~ In dot m /\ ~ In dot b
    /\ month_of j = Some m.
Proof.
  destruct j as [s|x]; simpl; [|discriminate].
  intros H. apply Nat.eqb_eq in H.
  pose proof (length_split_on dot s) as Hlen. rewrite H in Hlen.
  unfold month_of. simpl.
  destruct (split_on dot s) as [|a [|m [|b [|x rest]]]] eqn:E;
    simpl in Hlen; try lia.
  destruct (split_on_cons dot s a [m; b] E) as [Ha [s1 [-> E1]]].
  destruct (split_on_cons dot s1 m [b] E1) as [Hm [s2 [-> E2]]].
  destruct (split_on_cons dot s2 b [] E2) as [Hb ->].
  exists a, m, b. repeat split; assumption.
Qed.

(** [drop_duplicates] keeps a row exactly when no row before it has the
    same client. *)
Lemma In_drop_duplicates (l : list (cell * cell)) (p : cell * cell) :
  In p (drop_duplicates l)
  <-> exists l1 l2, l = l1 ++ p :: l2
                    /\ forall q, In q l1 -> cell_eqb (fst q) (fst p) = false.
Proof.
  induction l as [|a l IH]; simpl.
  - split; [tauto|]. intros [l1 [l2 [H _]]]. now destruct l1.
  - rewrite filter_In, IH, negb_true_iff. split.
    + intros [->|[[l1 [l2 [-> Hl1]]] Ha]].
      * exists [], l. split; [reflexivity|intros q []].
      * exists (a :: l1), l2. split; [reflexivity|].
        intros q [<-|Hq]; [assumption|now apply Hl1].
    + intros [l1 [l2 [H Hl1]]]. destruct l1 as [|b l1]; simpl in H.
      * injection H as -> _. now left.
      * injection H as -> ->. right. split.
        -- exists l1, l2. split; [reflexivity|].
           intros q Hq. apply Hl1. now right.
        -- apply Hl1. now left.
Qed.

Lemma In_first_jobs (pairs : list (cell * cell)) (p : cell * cell) :
  In p (first_jobs pairs)
  <-> (exists l1 l2, filter has_job pairs = l1 ++ p :: l2
                     /\ forall q, In q l1 -> cell_eqb (fst q) (fst p) = false)
      /\ has_two_dots (astype_str (snd p)) = true.
Proof.
  unfold first_jobs. rewrite filter_In, In_drop_duplicates. reflexivity.
Qed.

Lemma first_jobs_has_job (pairs : list (cell * cell)) (p : cell * cell) :
  In p (first_jobs pairs) -> isna (fst p) = false.
Proof.
  intros H. apply In_first_jobs in H. destruct H as [[l1 [l2 [H _]]] _].
  assert (Hin : In p (filter has_job pairs))
    by (rewrite H; apply in_elt).
  apply filter_In in Hin. destruct Hin as [_ Hj]. unfold has_job in Hj.
  apply andb_true_iff in Hj. destruct Hj as [Hj _].
  now apply negb_true_iff in Hj.
Qed.

Lemma keyed_months (fj : list (cell * cell)) :
  map fst (keyed_clients fj) = months_of fj.
Proof.
  unfold keyed_clients, months_of.
  induction fj as [|p fj IH]; simpl; [reflexivity|].
  rewrite map_app, IH. now destruct (month_of (snd p)).
Qed.

Lemma keyed_clients_of_month (fj : list (cell * cell)) (m : pystr) :
  map snd (filter (fun e => PyStr.eqb m (fst e)) (keyed_clients fj))
  = clients_of_month fj m.
Proof.
  unfold keyed_clients, clients_of_month.
  induction fj as [|p fj IH]; simpl; [reflexivity|].
  rewrite filter_app, map_app, IH.
  destruct (month_of (snd p)) as [m'|]; simpl; [|reflexivity].
  now destruct (PyStr.eqb m m').
Qed.

(** The groups of the source are the client lists by month. *)
Lemma month_groups_clients (fj : list (cell * cell)) :
  month_groups fj
  = map (fun m => (m, clients_of_month fj m))
        (sort PyStr.leb (uniq PyStr.eqb (months_of fj))).
Proof.
  unfold month_groups. cbv zeta. fold (keyed_clients fj).
  rewrite keyed_months. apply map_ext. intros m.
  now rewrite keyed_clients_of_month.
Qed.

Lemma pivot_months_spec (fj : list (cell * cell)) :
  Sorted (fun a b => PyStr.leb a b = true) (pivot_months fj)
  /\ NoDup (pivot_months fj)
  /\ forall m, In m (pivot_months fj)
               <-> exists p, In p fj /\ month_of (snd p) = Some m.
Proof.
  unfold pivot_months. split; [apply sort_sorted, pystr_leb_total|]. split.
  - eapply Permutation_NoDup; [symmetry; apply sort_perm|].
    eapply Permutation_NoDup; [symmetry; apply sort_perm|].
    apply NoDup_uniq, pystr_eqb_spec.
  - intros m. rewrite !In_sort, (In_uniq _ pystr_eqb_spec).
    unfold months_of. rewrite in_flat_map. split.
    + intros [p [Hp Hm]]. exists p. split; [assumption|].
      destruct (month_of (snd p)) as [m'|]; [|destruct Hm].
      destruct Hm as [->|[]]. reflexivity.
    + intros [p [Hp Hm]]. exists p. split; [assumption|].
      rewrite Hm. now left.
Qed.

(** The frame the script builds, before its last [dropna]. *)
Lemma pivot_unfold (fj : list (cell * cell)) :
  pivot fj
  = dropna_all
      {| columns := map (fun m => CStr (py "Job No." ++ m)) (pivot_months fj);
         rows := map (fun i => map (fun c => of_option (nth_error c i))
                                   (map (clients_of_month fj)
                                        (pivot_months fj)))
                     (seq 0 (max_length (map (clients_of_month fj)
                                             (pivot_months fj)))) |}.
Proof.
  unfold pivot. cbv zeta. rewrite month_groups_clients.
  rewrite map_map. simpl fst. rewrite map_id. fold (pivot_months fj).
  assert (Hcols :
    map (fun m => match dict_get m
                          (map (fun m0 => (m0, clients_of_month fj m0))
                               (sort PyStr.leb
                                  (uniq PyStr.eqb (months_of fj))))
                  with
                  | Some cl => cl
                  | None => []
                  end) (pivot_months fj)
    = map (clients_of_month fj) (pivot_months fj)).
  { apply map_ext_in. intros m Hm. unfold pivot_months in Hm.
    apply In_sort in Hm. now rewrite dict_get_map. }
  rewrite Hcols, zip_longest_rows, map_map.
  do 2 f_equal. apply map_ext. intros i. now rewrite map_map.
Qed.

Lemma clients_of_month_present (fj : list (cell * cell)) (m : pystr)
  (x : cell) :
  (forall p, In p fj -> isna (fst p) = false) ->
  In x (clients_of_month fj m) -> isna x = false.
Proof.
  intros Hfj Hx. unfold clients_of_month in Hx.
  apply in_map_iff in Hx. destruct Hx as [p [<- Hp]].
  apply filter_In in Hp. apply Hfj, Hp.
Qed.

(** No row of the pivot is empty, so its last [dropna] drops nothing. *)
Lemma pivot_rows (fj : list (cell * cell)) :
  (forall p, In p fj -> isna (fst p) = false) ->
  rows (pivot fj)
  = map (fun i => map (fun c => of_option (nth_error c i))
                      (map (clients_of_month fj) (pivot_months fj)))
        (seq 0 (max_length (map (clients_of_month fj) (pivot_months fj)))).
Proof.
  intros Hfj. rewrite pivot_unfold. unfold dropna_all. simpl.
  apply filter_all. intros r Hr.
  apply in_map_iff in Hr. destruct Hr as [i [<- Hi]].
  apply in_seq in Hi.
  destruct (max_length_reached
              (map (clients_of_month fj) (pivot_months fj)) i)
    as [c [Hc Hlen]]; [lia|].
  apply existsb_exists. exists (of_option (nth_error c i)). split.
  - apply in_map_iff. exists c. split; [reflexivity|assumption].
  - destruct (nth_error c i) as [x|] eqn:E.
    + simpl. apply negb_true_iff.
      apply in_map_iff in Hc. destruct Hc as [m [<- _]].
      eapply clients_of_month_present; [exact Hfj|].
      eapply nth_error_In; eassumption.
    + apply nth_error_None in E. lia.
Qed.

Lemma filter_andb {A} (p q : A -> bool) (l : list A) :
  filter (fun x => p x && q x) l = filter p (filter q l).
Proof.
  induction l as [|a l IH]; simpl; [reflexivity|].
  destruct (q a); simpl.
  - rewrite andb_true_r. destruct (p a); now rewrite IH.
  - now rewrite andb_false_r.
Qed.

(** The rows [first_jobs] keeps below [above] are those the reading of the
    table from the top takes. *)
Lemma first_job_rows_from (l above : list (cell * cell)) :
  filter (fun p => has_two_dots (astype_str (snd p)))
    (filter (fun q => negb (existsb (fun a => has_job a
                                              && cell_eqb (fst a) (fst q))
                                    above))
       (drop_duplicates (filter has_job l)))
  = first_job_rows above l.
Proof.
  revert above. induction l as [|p l IH]; intros above; [reflexivity|].
  cbn [filter first_job_rows]. unfold first_of_client.
  destruct (has_job p) eqn:Hp.
  - cbn [drop_duplicates filter andb].
    rewrite <- IH.
    assert (Hdots : has_two_dots (astype_str (snd p)) = two_dot_text (snd p))
      by (destruct (snd p); reflexivity).
    assert (Hrest :
      filter (fun q => negb (existsb (fun a => has_job a
                                               && cell_eqb (fst a) (fst q))
                                     above))
        (filter (fun q => negb (cell_eqb (fst p) (fst q)))
           (drop_duplicates (filter has_job l)))
      = filter (fun q => negb (existsb (fun a => has_job a
                                                 && cell_eqb (fst a) (fst q))
                                       (above ++ [p])))
          (drop_duplicates (filter has_job l))).
    { rewrite <- filter_andb. apply filter_ext. intros q.
      rewrite existsb_app. cbn [existsb]. rewrite Hp, orb_false_r.
      cbn [andb]. now rewrite negb_orb. }
    destruct (negb (existsb (fun a => has_job a && cell_eqb (fst a) (fst p))
                            above)); cbn [filter andb].
    + rewrite Hdots, Hrest. now destruct (two_dot_text (snd p)).
    + now rewrite Hrest.
  - cbn [andb app]. rewrite <- IH. f_equal. apply filter_ext. intros q.
    rewrite existsb_app. cbn [existsb]. rewrite Hp. cbn [andb].
    now rewrite !orb_false_r.
Qed.

Lemma first_jobs_rows (pairs : list (cell * cell)) :
  first_jobs pairs = first_job_rows [] pairs.
Proof.
  rewrite <- first_job_rows_from. unfold first_jobs. f_equal.
  symmetry. apply filter_all. reflexivity.
Qed.

Lemma count_char_app (c : N) (a b : pystr) :
  count_char c (a ++ b) = count_char c a + count_char c b.
Proof. unfold count_char. now rewrite filter_app, length_app. Qed.

Lemma count_char_none (c : N) (a : pystr) : ~ In c a -> count_char c a = 0.
Proof.
  unfold count_char. induction a as [|d a IH]; intros H; [reflexivity|].
  simpl. destruct (N.eqb_spec d c) as [->|_].
  - exfalso. apply H. now left.
  - apply IH. intros Hin. apply H. now right.
Qed.

Lemma split_on_app (c : N) (a s : pystr) :
  ~ In c a -> split_on c (a ++ c :: s) = a :: split_on c s.
Proof.
  induction a as [|d a IH]; intros H; simpl.
  - now rewrite N.eqb_refl.
  - destruct (N.eqb_spec d c) as [->|_].
    + exfalso. apply H. now left.
    + rewrite IH; [reflexivity|]. intros Hin. apply H. now right.
Qed.

(** The texts with exactly two dots are the texts of three dot-free
    segments. *)
Lemma two_dot_text_segments (j : cell) :
  two_dot_text j = true
  <-> exists a m b, j = CStr (a ++ dot :: m ++ dot :: b)
                    /\ ~ In dot a /\ ~ In dot m /\ ~ In dot b.
Proof.
  split.
  - intros H.
    assert (H' : has_two_dots (astype_str j) = true)
      by (destruct j; exact H).
    destruct (two_dots_segments j H') as [a [m [b [Hj [Ha [Hm [Hb _]]]]]]].
    exists a, m, b. auto.
  - intros [a [m [b [-> [Ha [Hm Hb]]]]]]. cbn [two_dot_text].
    apply Nat.eqb_eq.
    change (a ++ dot :: m ++ dot :: b) with (a ++ [dot] ++ m ++ [dot] ++ b).
    rewrite !count_char_app.
    rewrite (count_char_none dot a Ha), (count_char_none dot m Hm),
      (count_char_none dot b Hb). reflexivity.
Qed.

(** The month of a job identifier is its middle segment. *)
Lemma month_of_segments (a m b : pystr) :
  ~ In dot a -> ~ In dot m ->
  month_of (CStr (a ++ dot :: m ++ dot :: b)) = Some m.
Proof.
  intros Ha Hm. unfold month_of. cbn [astype_str].
  rewrite split_on_app by assumption.
  rewrite split_on_app by assumption. reflexivity.
Qed.

(** C7.  The pivot reads the rows of the combined table from the top and
    takes, for every client, its first row among the rows that have a
    client and a job number, provided the job number is a text with exactly
    two dots, that is three dot-free segments; the month of a row is the
    middle segment.  The pivot has one column per month that occurs, in
    ascending order of the months; the column of a month lists the clients
    of the rows taken for that month, in table order, and is padded with
    missing values to the length of the longest column.  With the job
    numbers 3.07.1, 5.09.2 and 9.07.3 of the specification the column of
    month 07 holds client1 and client3 and the column of month 09 holds
    client2 and a placeholder. *)
Theorem first_job_pivot (df : frame) (cl jn : list cell) :
  get_col client df = Ok cl ->
  get_col job_no df = Ok jn ->
  first_jobs_pivot df = Ok (pivot (first_jobs (combine cl jn)))
  /\ first_jobs (combine cl jn) = first_job_rows [] (combine cl jn)
  /\ (forall j, two_dot_text j = true
        <-> exists a m b, j = CStr (a ++ dot :: m ++ dot :: b)
                          /\ ~ In dot a /\ ~ In dot m /\ ~ In dot b)
  /\ (forall a m b, ~ In dot a -> ~ In dot m -> ~ In dot b ->
        month_of (CStr (a ++ dot :: m ++ dot :: b)) = Some m)
  /\ (forall p, In p (first_jobs (combine cl jn)) <->
        (exists l1 l2, filter has_job (combine cl jn) = l1 ++ p :: l2
                       /\ forall q, In q l1 ->
                            cell_eqb (fst q) (fst p) = false)
        /\ exists a m b,
             snd p = CStr (a ++ dot :: m ++ dot :: b)
             /\ ~ In dot a /\ ~ In dot m /\ ~ In dot b)
  /\ (exists months,
       Sorted (fun a b => PyStr.leb a b = true) months
       /\ NoDup months
       /\ (forall m, In m months <->
             exists p a b, In p (first_jobs (combine cl jn))
                           /\ snd p = CStr (a ++ dot :: m ++ dot :: b)
                           /\ ~ In dot a /\ ~ In dot m /\ ~ In dot b)
       /\ columns (pivot (first_jobs (combine cl jn)))
          = map (fun m => CStr (py "Job No." ++ m)) months
       /\ length (rows (pivot (first_jobs (combine cl jn))))
          = max_length
              (map (clients_of_month (first_jobs (combine cl jn))) months)
       /\ forall k m, nth_error months k = Some m ->
            map (fun r => nth k r missing)
                (rows (pivot (first_jobs (combine cl jn))))
            = clients_of_month (first_jobs (combine cl jn)) m
              ++ repeat missing
                   (max_length
                      (map (clients_of_month (first_jobs (combine cl jn)))
                           months)
                    - length (clients_of_month (first_jobs (combine cl jn))
                                               m)))
  /\ first_jobs sample_jobs = sample_jobs
  /\ pivot (first_jobs sample_jobs)
     = {| columns := [txt "Job No.07"; txt "Job No.09"];
          rows := [ [txt "client1"; txt "client2"];
                    [txt "client3"; missing] ] |}
  /\ first_jobs [ (txt "A", txt "3.07.1"); (txt "B", missing);
                  (txt "A", txt "4.08.1"); (txt "B", txt "5.09");
                  (txt "B", txt "6.10.1"); (txt "C", CNum one);
                  (txt "D", txt "7.07.2") ]
     = [ (txt "A", txt "3.07.1"); (txt "D", txt "7.07.2") ].
Proof.
  intros Hcl Hjn.
  split; [unfold first_jobs_pivot; rewrite Hcl, Hjn; reflexivity|].
  generalize (combine cl jn). intros pairs.
  split; [apply first_jobs_rows|].
  split; [apply two_dot_text_segments|].
  split; [intros a m b Ha Hm _; now apply month_of_segments|].
  split.
  { intros p. rewrite In_first_jobs.
    assert (Hdots : has_two_dots (astype_str (snd p)) = two_dot_text (snd p))
      by (destruct (snd p); reflexivity).
    rewrite Hdots, two_dot_text_segments. reflexivity. }
  split.
  { pose proof (first_jobs_has_job pairs) as Hpresent.
    destruct (pivot_months_spec (first_jobs pairs)) as [Hsorted [Hnodup Hin]].
    exists (pivot_months (first_jobs pairs)).
    split; [exact Hsorted|]. split; [exact Hnodup|]. split.
    { intros m. rewrite Hin. split.
      - intros [p [Hp Hm]]. pose proof Hp as Hp'.
        apply In_first_jobs in Hp'. destruct Hp' as [_ Hdots].
        destruct (two_dots_segments _ Hdots)
          as [a [m' [b [Hj [Ha [Hm' [Hb Hmo]]]]]]].
        assert (m' = m) by congruence. subst m'.
        exists p, a, b. auto.
      - intros [p [a [b [Hp [Hj [Ha [Hm Hb]]]]]]]. exists p.
        split; [exact Hp|]. rewrite Hj. now apply month_of_segments. }
    split; [rewrite pivot_unfold; reflexivity|].
    rewrite (pivot_rows _ Hpresent).
    split; [now rewrite length_map, length_seq|].
    intros k m Hk. rewrite map_map.
    rewrite <- (pad_column (clients_of_month (first_jobs pairs) m)).
    - apply map_ext. intros i.
      apply nth_error_nth.
      rewrite nth_error_map, nth_error_map, Hk. reflexivity.
    - apply length_le_max_length. apply in_map.
      eapply nth_error_In; eassumption. }
  repeat split; reflexivity.
Qed.

Lemma first_job_pivot_witness :
  get_col client shipments_typed = Ok [txt "A"; txt "A"; txt "B"]
  /\ get_col job_no shipments_typed
     = Ok [txt "3.07.1"; txt "3.07.1"; txt "3.07.1"]
  /\ first_jobs_pivot shipments_typed
     = Ok {| columns := [txt "Job No.07"];
             rows := [ [txt "A"]; [txt "B"] ] |}.
Proof.
  split; [reflexivity|]. split; [reflexivity|].
  exact (proj1 (first_job_pivot shipments_typed
                  [txt "A"; txt "A"; txt "B"]
                  [txt "3.07.1"; txt "3.07.1"; txt "3.07.1"]
                  eq_refl eq_refl)).
Defined.

(* ================================================================= *)
(** * Further properties of the pipeline *)

(** ** Forward fill, again *)

Lemma ffill_from_idem (col : list cell) :
  forall last, ffill_from last (ffill_from last col) = ffill_from last col.
Proof.
  induction col as [|c col IH]; intros last; simpl; [reflexivity|].
  destruct (isna c) eqn:Hc; simpl.
  - destruct (isna last); now rewrite IH.
  - now rewrite Hc, IH.
Qed.

(** X1.  Filling forward a column that has been filled forward changes
    nothing. *)
Theorem ffill_is_stable (col : list cell) : ffill (ffill col) = ffill col.
Proof. apply ffill_from_idem. Qed.

Lemma ffill_from_present (col : list cell) :
  forall last, isna last = false ->
    Forall (fun v => isna v = false) (ffill_from last col).
Proof.
  induction col as [|c col IH]; intros last Hlast; simpl; [constructor|].
  destruct (isna c) eqn:Hc; constructor; auto.
Qed.

(** X2.  The filled column is free of missing values exactly when the
    column is empty or its first value is present; and missing values at
    the top of the table are the only ones the fill leaves: row [i] of the
    filled column is missing exactly when every row of the column from the
    top down to row [i] is missing. *)
Theorem ffill_leaves_only_leading_gaps (col : list cell) :
  (Forall (fun v => isna v = false) (ffill col)
   <-> match col with
       | [] => True
       | c :: _ => isna c = false
       end)
  /\ (forall i, i < length col ->
        (isna (nth i (ffill col) missing) = true
         <-> forall k, k <= i -> isna (nth k col missing) = true)).
Proof.
  split.
  - unfold ffill. destruct col as [|c col]; simpl.
    + split; [trivial|constructor].
    + destruct (isna c) eqn:Hc; split; intros H.
      * inversion H as [|v vs Hv _]; subst. discriminate Hv.
      * discriminate.
      * reflexivity.
      * constructor; [assumption|]. now apply ffill_from_present.
  - intros i Hi. unfold ffill.
    destruct (ffill_from_nth col missing i Hi) as [Hp Hm].
    split.
    + intros Hna. destruct (isna (nth i col missing)) eqn:Hc.
      * destruct (Hm eq_refl) as [[j [_ [Hj [_ Hv]]]]|[Hall _]].
        { rewrite Hv in Hna. congruence. }
        { exact Hall. }
      * rewrite (Hp eq_refl) in Hna. congruence.
    + intros Hall.
      destruct (Hm (Hall i (le_n i))) as [[j [Hji [Hj _]]]|[_ Hv]].
      * rewrite Hall in Hj by lia. discriminate.
      * rewrite Hv. reflexivity.
Qed.

(** ** Separators in a number *)

Lemma remove_char_skip (c : N) (a b : pystr) :
  remove_char c (a ++ c :: b) = remove_char c (a ++ b).
Proof.
  unfold remove_char. rewrite !filter_app. simpl.
  now rewrite N.eqb_refl.
Qed.

Lemma remove_char_app (c : N) (a b : pystr) :
  remove_char c (a ++ b) = remove_char c a ++ remove_char c b.
Proof. apply filter_app. Qed.

(** X3.  A comma or a no-break space anywhere in the text of a value is
    ignored by the coercion, whether or not it stands where a thousands
    separator would. *)
Theorem separators_are_ignored {U : UnicodeData} (a b : pystr) :
  coerce_value (CStr (a ++ comma :: b)) = coerce_value (CStr (a ++ b))
  /\ coerce_value (CStr (a ++ nbsp :: b)) = coerce_value (CStr (a ++ b)).
Proof.
  unfold coerce_value, cleanup. simpl. split.
  - now rewrite remove_char_skip.
  - rewrite !(remove_char_app comma). simpl.
    now rewrite remove_char_skip.
Qed.

(** ** The normaliser on every frame *)

Lemma strip_and_promote_cases (df : frame) :
  match columns df, rows df with
  | [], _ => strip_and_promote df = Raise IndexError
  | _ :: _, [] => strip_and_promote df = Raise KeyError
  | _ :: _, [_] => strip_and_promote df = Raise IndexError
  | _ :: _, _ :: _ :: _ => exists t, strip_and_promote df = Ok t
  end.
Proof.
  unfold strip_and_promote, drop_first_column.
  destruct (columns df) as [|l0 ls]; [reflexivity|].
  unfold drop_label, drop_row0. simpl.
  destruct (rows df) as [|r0 [|r1 rest]]; simpl; try reflexivity.
  eexists. reflexivity.
Qed.

(** X4.  The normaliser raises [IndexError] on a sheet frame without
    columns, [KeyError] on one with columns and no row, [IndexError] on one
    with columns and a single row, and returns a table on every other
    frame. *)
Theorem normalizer_failures (sheet : pystr) (df : frame) :
  match columns df, rows df with
  | [], _ => normalize_sheet sheet df = Raise IndexError
  | _ :: _, [] => normalize_sheet sheet df = Raise KeyError
  | _ :: _, [_] => normalize_sheet sheet df = Raise IndexError
  | _ :: _, _ :: _ :: _ => exists t, normalize_sheet sheet df = Ok t
  end.
Proof.
  pose proof (strip_and_promote_cases df) as H. unfold normalize_sheet.
  destruct (columns df) as [|l0 ls].
  - now rewrite H.
  - destruct (rows df) as [|r0 [|r1 rest]]; try now rewrite H.
    destruct H as [t ->]. eexists. reflexivity.
Qed.

(** X5.  A sheet frame with exactly one column and at least two rows does
    not make the normaliser raise: its table has no row and the client
    column only. *)
Theorem single_column_sheet (sheet : pystr) (df : frame) (l0 : cell)
  (r0 r1 : list cell) (rest : list (list cell)) :
  columns df = [l0] ->
  rows df = r0 :: r1 :: rest ->
  normalize_sheet sheet df = Ok {| columns := [client]; rows := [] |}.
Proof.
  intros Hc Hr.
  unfold normalize_sheet, strip_and_promote, drop_first_column.
  rewrite Hc. unfold drop_label. rewrite Hc, Hr. simpl.
  rewrite cell_eqb_refl. simpl.
  assert (Hcols : match r1 with [] | _ => @nil cell end = [])
    by (now destruct r1).
  rewrite Hcols.
  assert (Hrows : filter (fun r : list cell =>
                            existsb (fun c => negb (isna c)) r)
                         (map (fun l : list cell =>
                                 match l with [] | _ => @nil cell end) rest)
                  = []).
  { clear. induction rest as [|r rs IH]; simpl; [reflexivity|].
    destruct r; simpl; exact IH. }
  unfold add_client, dropna_all, set_col. simpl. rewrite Hrows. reflexivity.
Qed.

Lemma single_column_sheet_witness :
  columns {| columns := [txt "Unnamed: 0"];
             rows := [[missing]; [txt "notes"]; [txt "n1"]] |}
  = [txt "Unnamed: 0"]
  /\ normalize_sheet (py "A")
       {| columns := [txt "Unnamed: 0"];
          rows := [[missing]; [txt "notes"]; [txt "n1"]] |}
     = Ok {| columns := [client]; rows := [] |}.
Proof.
  split; [reflexivity|].
  exact (single_column_sheet (py "A")
           {| columns := [txt "Unnamed: 0"];
              rows := [[missing]; [txt "notes"]; [txt "n1"]] |}
           (txt "Unnamed: 0") [missing] [txt "notes"] [[txt "n1"]]
           eq_refl eq_refl).
Defined.

(** ** The loop over the sheets, again *)

Lemma process_sheets_all_fail (sheets data : list (pystr * frame)) :
  (forall p, In p sheets ->
     exists e, normalize_sheet (fst p) (snd p) = Raise e) ->
  fst (process_sheets sheets data) = data.
Proof.
  induction sheets as [|[sheet df] sheets IH]; intros H; [reflexivity|].
  destruct (H (sheet, df) (or_introl eq_refl)) as [e He]. simpl in He.
  rewrite (process_sheets_failed sheet df e sheets data He). simpl.
  apply IH. intros p Hp. apply H. now right.
Qed.

(** X6.  When the normaliser raises on every sheet of the workbook,
    nothing is stored, [pd.concat] raises [ValueError] on the empty
    collection and no combined table is built. *)
Theorem no_sheet_left {U : UnicodeData} (sheets : list (pystr * frame)) :
  (forall p, In p sheets ->
     exists e, normalize_sheet (fst p) (snd p) = Raise e) ->
  fst (process_sheets sheets []) = []
  /\ snd (load_and_combine sheets) = Raise ValueError.
Proof.
  intros H. pose proof (process_sheets_all_fail sheets [] H) as Hd.
  split; [exact Hd|]. unfold load_and_combine.
  destruct (process_sheets sheets []) as [d log]. simpl in Hd. subst d.
  reflexivity.
Qed.

Lemma no_sheet_left_witness :
  (forall p, In p [(py "B", short_sheet)] ->
     exists e, normalize_sheet (fst p) (snd p) = Raise e)
  /\ snd (@load_and_combine ascii_tables [(py "B", short_sheet)])
     = Raise ValueError.
Proof.
  assert (H : forall p, In p [(py "B", short_sheet)] ->
                exists e, normalize_sheet (fst p) (snd p) = Raise e).
  { intros p [<-|[]]. exists IndexError. reflexivity. }
  split; [exact H|].
  exact (proj2 (@no_sheet_left ascii_tables [(py "B", short_sheet)] H)).
Defined.

(** X7.  The loop reports on every sheet once and in workbook order,
    whether the sheet was stored or not. *)
Theorem one_message_per_sheet (sheets data : list (pystr * frame)) :
  map msg_sheet (snd (process_sheets sheets data))
  = map (fun p => Some (fst p)) sheets.
Proof.
  revert data. induction sheets as [|[sheet df] sheets IH]; intros data;
    [reflexivity|].
  simpl. destruct (normalize_sheet sheet df) as [t|e].
  - specialize (IH (dict_set sheet t data)).
    destruct (process_sheets sheets (dict_set sheet t data)). simpl in *.
    now rewrite IH.
  - specialize (IH data). destruct (process_sheets sheets data). simpl in *.
    now rewrite IH.
Qed.

(** ** Dictionaries *)

Lemma dict_get_set_other {V} (k k' : pystr) (v : V) (d : list (pystr * V)) :
  k <> k' -> dict_get k' (dict_set k v d) = dict_get k' d.
Proof.
  intros Hne. induction d as [|[k0 v0] d IH]; simpl.
  - destruct (PyStr.eqb k' k) eqn:E; [|reflexivity].
    apply pystr_eqb_spec in E. congruence.
  - destruct (PyStr.eqb k k0) eqn:E; simpl.
    + apply pystr_eqb_spec in E. subst k0.
      destruct (PyStr.eqb k' k) eqn:E'; [|reflexivity].
      apply pystr_eqb_spec in E'. congruence.
    + now rewrite IH.
Qed.

(** X8.  Storing under a key and reading the key back gives what was
    stored; the other keys read as before; a key that was there keeps its
    place and a new key goes last. *)
Theorem dict_set_get {V} (k : pystr) (v : V) (d : list (pystr * V)) :
  dict_get k (dict_set k v d) = Some v
  /\ (forall k', k <> k' -> dict_get k' (dict_set k v d) = dict_get k' d)
  /\ map fst (dict_set k v d)
     = if existsb (PyStr.eqb k) (map fst d) then map fst d
       else map fst d ++ [k].
Proof.
  split; [|split].
  - induction d as [|[k0 v0] d IH]; simpl.
    + now rewrite (proj2 (pystr_eqb_spec k k) eq_refl).
    + destruct (PyStr.eqb k k0) eqn:E; simpl.
      * now rewrite (proj2 (pystr_eqb_spec k k) eq_refl).
      * now rewrite E.
  - intros k' Hne. now apply dict_get_set_other.
  - induction d as [|[k0 v0] d IH]; simpl; [reflexivity|].
    destruct (PyStr.eqb k k0) eqn:E; simpl.
    + apply pystr_eqb_spec in E. now subst.
    + rewrite IH. now destruct (existsb (PyStr.eqb k) (map fst d)).
Qed.

(** ** A numeric column that is not there *)

Lemma get_col_raises (l : cell) (df : frame) (e : exn) :
  get_col l df = Raise e -> e = KeyError.
Proof.
  unfold get_col. destruct (index_of l (columns df)); [discriminate|].
  congruence.
Qed.

Lemma get_col_absent (l : cell) (df : frame) :
  has_col l df = false -> get_col l df = Raise KeyError.
Proof.
  intros H. unfold get_col.
  destruct (index_of l (columns df)) as [i|] eqn:E; [|reflexivity].
  assert (has_col l df = true) by (apply has_col_index; now exists i).
  congruence.
Qed.

Lemma coerce_numeric_columns {U : UnicodeData} (cols : list cell) :
  forall df log df',
    coerce_numeric cols df = (log, Ok df') ->
    columns df' = columns df
    /\ forall l, In l cols -> has_col l df = false -> In (Warning l) log.
Proof.
  induction cols as [|h cols IH]; intros df log df' Hrun; simpl in Hrun.
  - injection Hrun as <- <-. split; [reflexivity|intros l []].
  - destruct (has_col h df) eqn:Hhas.
    + destruct (get_col h df) as [vs|e] eqn:Hget; simpl in Hrun;
        [|discriminate].
      destruct (coerce_column vs) as [xs|e]; [|discriminate].
      destruct (IH _ _ _ Hrun) as [Hc Hw].
      destruct (proj1 (has_col_index _ _) Hhas) as [i Hi].
      rewrite (columns_set_col_present h (map CNum xs) df i Hi) in Hc.
      split; [exact Hc|].
      intros l [<-|Hl] Habs; [congruence|].
      apply Hw; [assumption|]. unfold has_col in *.
      now rewrite (columns_set_col_present h (map CNum xs) df i Hi).
    + destruct (coerce_numeric cols df) as [log0 r] eqn:Hrest.
      injection Hrun as <- ->.
      destruct (IH _ _ _ Hrest) as [Hc Hw]. split; [exact Hc|].
      intros l [<-|Hl] Habs; [now left|right; now apply Hw].
Qed.

(** X9.  A numeric column that the combined table lacks does not stop the
    coercion loop, which warns about it and leaves the table without it;
    the summary by client and currency, which reads the column, then
    raises. *)
Theorem absent_numeric_column {U : UnicodeData} (df df' : frame)
  (log : list msg) (l : cell) :
  In l numeric_columns ->
  has_col l df = false ->
  coerce_numeric numeric_columns df = (log, Ok df') ->
  In (Warning l) log
  /\ has_col l df' = false
  /\ exists e, summary df' = Raise e.
Proof.
  intros Hl Habs Hrun.
  destruct (coerce_numeric_columns numeric_columns df log df' Hrun)
    as [Hc Hw].
  split; [now apply Hw|].
  assert (Habs' : has_col l df' = false)
    by (unfold has_col in *; now rewrite Hc).
  split; [exact Habs'|].
  pose proof (get_col_absent l df' Habs') as Hget.
  unfold summary, records.
  destruct (get_col client df') as [cl|e1]; simpl; [|now exists e1].
  destruct (get_col currency df') as [cu|e2]; simpl; [|now exists e2].
  destruct Hl as [<-|[<-|[]]].
  - unfold numeric_col at 1. rewrite Hget. simpl. now exists KeyError.
  - destruct (numeric_col quantity_mt df') as [q|e3]; simpl;
      [|now exists e3].
    unfold numeric_col. rewrite Hget. simpl. now exists KeyError.
Qed.

Lemma absent_numeric_column_witness :
  has_col invoice_amount cargo = false
  /\ @coerce_numeric ascii_tables numeric_columns cargo
     = ([Warning invoice_amount], Ok cargo)
  /\ In (Warning invoice_amount) [Warning invoice_amount].
Proof.
  split; [reflexivity|]. split; [reflexivity|].
  exact (proj1 (@absent_numeric_column ascii_tables cargo cargo
                  [Warning invoice_amount] invoice_amount
                  (or_intror (or_introl eq_refl)) eq_refl eq_refl)).
Defined.

(** ** Concatenation *)

Lemma cell_eqb_str_r (s : pystr) (c : cell) :
  cell_eqb c (CStr s) = true <-> c = CStr s.
Proof.
  destruct c as [t|x]; simpl.
  - rewrite pystr_eqb_spec. split; congruence.
  - split; discriminate.
Qed.

(** A text label is looked up alike under two lists of equal labels. *)
Lemma index_of_labels_eqb (s : pystr) (a b : list cell) :
  labels_eqb a b = true -> index_of (CStr s) a = index_of (CStr s) b.
Proof.
  revert b. induction a as [|x a IH]; intros [|y b] H; simpl in H;
    try discriminate; [reflexivity|].
  apply andb_true_iff in H. destruct H as [Hxy Hab].
  cbn [index_of]. rewrite (IH b Hab).
  destruct (cell_eqb (CStr s) x) eqn:Ex.
  - apply cell_eqb_str in Ex. subst x. now rewrite Hxy.
  - destruct (cell_eqb (CStr s) y) eqn:Ey; [|reflexivity].
    apply cell_eqb_str in Ey. subst y.
    apply cell_eqb_str_r in Hxy. subst x.
    rewrite cell_eqb_refl in Ex. discriminate.
Qed.

Lemma has_col_index_of (l : cell) (df : frame) :
  has_col l df = match index_of l (columns df) with
                 | Some _ => true
                 | None => false
                 end.
Proof.
  destruct (index_of l (columns df)) as [i|] eqn:E.
  - apply has_col_index. now exists i.
  - destruct (has_col l df) eqn:H; [|reflexivity].
    apply has_col_index in H. destruct H as [i Hi]. congruence.
Qed.

Lemma map_flat_map {A B C} (f : B -> C) (g : A -> list B) (l : list A) :
  map f (flat_map g l) = flat_map (fun a => map f (g a)) l.
Proof.
  induction l as [|a l IH]; simpl; [reflexivity|].
  now rewrite map_app, IH.
Qed.

Lemma flat_map_ext_in {A B} (f g : A -> list B) (l : list A) :
  (forall a, In a l -> f a = g a) -> flat_map f l = flat_map g l.
Proof.
  induction l as [|a l IH]; simpl; intros H; [reflexivity|].
  rewrite (H a (or_introl eq_refl)), IH; [reflexivity|].
  intros b Hb. apply H. now right.
Qed.

Lemma map_const_repeat {A B} (b : B) (l : list A) :
  map (fun _ => b) l = repeat b (length l).
Proof. induction l as [|a l IH]; simpl; [reflexivity|]. now rewrite IH. Qed.

Lemma column_or_missing_index (l : cell) (f : frame) :
  column_or_missing l f
  = map (fun r => match index_of l (columns f) with
                  | Some j => nth j r missing
                  | None => missing
                  end) (rows f).
Proof.
  unfold column_or_missing, get_col.
  destruct (index_of l (columns f)); [reflexivity|].
  symmetry. apply map_const_repeat.
Qed.

Lemma nth_map_index_of (s : pystr) (g : cell -> cell) (cols : list cell)
  (i : nat) :
  index_of (CStr s) cols = Some i ->
  nth i (map g cols) missing = g (CStr s).
Proof.
  revert i. induction cols as [|c cols IH]; intros i H; cbn [index_of] in H;
    [discriminate|].
  destruct (cell_eqb (CStr s) c) eqn:E.
  - injection H as <-. apply cell_eqb_str in E. now subst.
  - destruct (index_of (CStr s) cols) as [j|]; [|discriminate].
    injection H as <-. cbn [map nth]. now apply IH.
Qed.

Lemma existsb_add_labels (s : pystr) (new : list cell) :
  forall acc,
    existsb (cell_eqb (CStr s)) (add_labels acc new)
    = existsb (cell_eqb (CStr s)) acc || existsb (cell_eqb (CStr s)) new.
Proof.
  induction new as [|l new IH]; intros acc; cbn [add_labels existsb].
  - now rewrite orb_false_r.
  - rewrite IH. destruct (existsb (cell_eqb l) acc) eqn:El.
    + destruct (cell_eqb (CStr s) l) eqn:E; [|reflexivity].
      apply cell_eqb_str in E. subst l. now rewrite El.
    + rewrite existsb_app. cbn [existsb]. rewrite orb_false_r.
      now rewrite orb_assoc.
Qed.

Lemma existsb_union_labels (s : pystr) (frames : list frame) :
  forall acc,
    existsb (cell_eqb (CStr s))
      (fold_left (fun a f => add_labels a (columns f)) frames acc)
    = existsb (cell_eqb (CStr s)) acc
      || existsb (has_col (CStr s)) frames.
Proof.
  induction frames as [|f frames IH]; intros acc; cbn [fold_left existsb].
  - now rewrite orb_false_r.
  - rewrite IH, existsb_add_labels. unfold has_col. now rewrite orb_assoc.
Qed.

Lemma Ok_inj {A} (a b : A) : Ok a = Ok b -> a = b.
Proof. intros H. now injection H. Qed.

Lemma length_flat_map_rows (g : frame -> list cell -> list cell)
  (frames : list frame) :
  length (flat_map (fun f => map (g f) (rows f)) frames)
  = length (flat_map rows frames).
Proof.
  induction frames as [|f fs IH]; simpl; [reflexivity|].
  now rewrite !length_app, length_map, IH.
Qed.

Lemma existsb_all_equal {A} (p : A -> bool) (b : bool) (l : list A) :
  (forall a, In a l -> p a = b) -> b || existsb p l = b.
Proof.
  induction l as [|a l IH]; intros H; simpl.
  - apply orb_false_r.
  - rewrite (H a (or_introl eq_refl)), orb_assoc, orb_diag.
    apply IH. intros x Hx. apply H. now right.
Qed.

(** What [pd.concat] returns, column by column. *)
Lemma concat_spec (frames : list frame) (c : frame) (s : pystr) :
  concat frames = Ok c ->
  length (rows c) = length (flat_map rows frames)
  /\ has_col (CStr s) c = existsb (has_col (CStr s)) frames
  /\ (has_col (CStr s) c = true ->
      get_col (CStr s) c
      = Ok (flat_map (column_or_missing (CStr s)) frames)).
Proof.
  unfold concat. destruct frames as [|f0 rest]; [discriminate|].
  destruct (forallb (fun f => labels_eqb (columns f) (columns f0)) rest)
    eqn:Hsame.
  - intros H. apply Ok_inj in H. rename H into Hc.
    assert (Hcols : columns c = columns f0) by (now rewrite <- Hc).
    assert (Hrows : rows c = flat_map rows (f0 :: rest))
      by (now rewrite <- Hc).
    clear Hc. split; [now rewrite Hrows|].
    assert (Hidx : forall f, In f (f0 :: rest) ->
              index_of (CStr s) (columns f) = index_of (CStr s) (columns f0)).
    { intros f [<-|Hf]; [reflexivity|].
      rewrite forallb_forall in Hsame.
      now apply index_of_labels_eqb, Hsame. }
    assert (Hhc : has_col (CStr s) c = has_col (CStr s) f0)
      by (unfold has_col; now rewrite Hcols).
    split.
    + rewrite Hhc. cbn [existsb]. symmetry. apply existsb_all_equal.
      intros f Hf. rewrite !has_col_index_of, (Hidx f); [reflexivity|].
      now right.
    + intros Hhas. rewrite Hhc, has_col_index_of in Hhas.
      unfold get_col. rewrite Hcols, Hrows.
      destruct (index_of (CStr s) (columns f0)) as [i|] eqn:Hi;
        [|discriminate].
      f_equal. rewrite map_flat_map. apply flat_map_ext_in.
      intros f Hf. rewrite column_or_missing_index, (Hidx f Hf).
      reflexivity.
  - destruct (existsb (fun f => has_dup (columns f)) (f0 :: rest));
      [discriminate|].
    remember (fold_left (fun acc f => add_labels acc (columns f))
                        (f0 :: rest) []) as cols eqn:Ecols.
    intros H. apply Ok_inj in H. rename H into Hc.
    assert (Hcols : columns c = cols) by (now rewrite <- Hc).
    assert (Hrows : rows c
                    = flat_map (fun f => map (reindex_row (columns f) cols)
                                             (rows f)) (f0 :: rest))
      by (now rewrite <- Hc).
    clear Hc. split; [rewrite Hrows; apply length_flat_map_rows|].
    assert (Hhc : has_col (CStr s) c
                  = existsb (has_col (CStr s)) (f0 :: rest)).
    { unfold has_col at 1. rewrite Hcols, Ecols.
      now rewrite existsb_union_labels. }
    split; [exact Hhc|].
    intros Hhas. apply has_col_index in Hhas.
    destruct Hhas as [i Hi]. unfold get_col. rewrite Hi, Hrows.
    rewrite Hcols in Hi. f_equal.
    rewrite map_flat_map. apply flat_map_ext_in. intros f _.
    rewrite column_or_missing_index, map_map. apply map_ext. intros r.
    unfold reindex_row. now rewrite (nth_map_index_of s _ _ i Hi).
Qed.

(** X10.  [pd.concat] stacks the tables in their order: the combined table
    has the rows of all of them; it has a text-labelled column exactly
    when one of the tables has it; and such a column holds, table after
    table, the values the table has under that label, or [NaN] for each row
    of a table that has no such column. *)
Theorem concat_stacks_columns (frames : list frame) (c : frame) (s : pystr) :
  concat frames = Ok c ->
  length (rows c) = length (flat_map rows frames)
  /\ has_col (CStr s) c = existsb (has_col (CStr s)) frames
  /\ (has_col (CStr s) c = true ->
      get_col (CStr s) c
      = Ok (flat_map (column_or_missing (CStr s)) frames)).
Proof. apply concat_spec. Qed.

Lemma concat_stacks_columns_witness :
  concat [sheet_a; cargo]
  = Ok {| columns := [job_no; quantity_mt; invoice_amount; currency; client;
                      commodity];
          rows := [ [txt "3.07.1"; txt "1,234.50"; CNum one; txt "USD";
                     txt "A"; missing];
                    [missing; missing; txt " "; txt "USD"; txt "A"; missing];
                    [missing; CNum one; missing; missing; txt "A";
                     txt "wheat"];
                    [missing; CNum two; missing; missing; txt "B"; missing];
                    [missing; CNum two; missing; missing; txt "A";
                     txt "corn"] ] |}
  /\ has_col commodity
       {| columns := [job_no; quantity_mt; invoice_amount; currency; client;
                      commodity];
          rows := [ [txt "3.07.1"; txt "1,234.50"; CNum one; txt "USD";
                     txt "A"; missing];
                    [missing; missing; txt " "; txt "USD"; txt "A"; missing];
                    [missing; CNum one; missing; missing; txt "A";
                     txt "wheat"];
                    [missing; CNum two; missing; missing; txt "B"; missing];
                    [missing; CNum two; missing; missing; txt "A";
                     txt "corn"] ] |}
     = existsb (has_col commodity) [sheet_a; cargo].
Proof.
  split; [reflexivity|].
  exact (proj1 (proj2 (concat_stacks_columns [sheet_a; cargo] _
                         (py "commodity") eq_refl))).
Defined.

(** X11.  When no sheet table has a [job no] column, the combiner returns
    no table: either [pd.concat] raises or the forward fill raises
    [KeyError]. *)
Theorem job_no_is_required {U : UnicodeData} (tables : list frame) :
  (forall f, In f tables -> has_col job_no f = false) ->
  (exists e, concat tables = Raise e
             /\ table_combiner tables = ([], Raise e))
  \/ table_combiner tables = ([], Raise KeyError).
Proof.
  intros Hno. unfold table_combiner.
  destruct (concat tables) as [c|e] eqn:Hc; simpl.
  - right.
    destruct (concat_spec tables c (py "job no") Hc) as [_ [Hhas _]].
    assert (Habs : has_col job_no (dropna_all c) = false).
    { change (has_col (CStr (py "job no")) c = false).
      rewrite Hhas. clear -Hno. unfold job_no in Hno.
      induction tables as [|f fs IH]; cbn [existsb]; [reflexivity|].
      rewrite (Hno f (or_introl eq_refl)). cbn [orb].
      apply IH. intros g Hg. apply Hno. now right. }
    unfold ffill_job_no. rewrite (get_col_absent _ _ Habs). reflexivity.
  - left. exists e. split; reflexivity.
Qed.

Lemma job_no_is_required_witness :
  (forall f, In f [cargo] -> has_col job_no f = false)
  /\ @table_combiner ascii_tables [cargo] = ([], Raise KeyError).
Proof.
  assert (H : forall f, In f [cargo] -> has_col job_no f = false).
  { intros f [<-|[]]. reflexivity. }
  split; [exact H|].
  destruct (@job_no_is_required ascii_tables [cargo] H)
    as [[e [He _]]|Hk]; [discriminate He|exact Hk].
Defined.

(** ** The client column *)

Lemma length_select_by {A B} (mask : list bool) (r : list A) (r' : list B) :
  length r = length mask -> length r' = length mask ->
  length (select_by mask r) = length (select_by mask r').
Proof.
  revert r r'. induction mask as [|b mask IH]; intros r r' Hr Hr'.
  - destruct r; destruct r'; simpl in *; try discriminate. reflexivity.
  - destruct r as [|a r]; destruct r' as [|a' r']; simpl in *;
      try discriminate.
    destruct b; simpl; rewrite (IH r r'); try reflexivity; lia.
Qed.

Lemma strip_and_promote_rectangular (df t : frame) :
  rectangular df -> strip_and_promote df = Ok t -> rectangular t.
Proof.
  unfold rectangular, strip_and_promote, drop_first_column. intros Hrect.
  destruct (columns df) as [|l0 ls] eqn:Hc; [discriminate|].
  unfold drop_label, drop_row0. rewrite Hc. cbn [bind rows columns].
  destruct (rows df) as [|r0 [|r1 rest]]; cbn [map bind rows columns];
    try discriminate.
  unfold promote_header, iloc0, drop_row0. cbn [bind rows columns].
  intros H. apply Ok_inj in H. subst t. cbn [rows columns].
  inversion Hrect as [|x xs H0 Hrest]; subst.
  inversion Hrest as [|x xs H1 Hrest']; subst.
  rewrite Forall_forall in *. intros r Hr.
  apply in_map_iff in Hr. destruct Hr as [r' [<- Hr']].
  apply length_select_by; cbn [length]; rewrite length_map;
    [now apply Hrest'|exact H1].
Qed.

Lemma index_of_app_new (l : cell) (cols : list cell) :
  index_of l cols = None -> index_of l (cols ++ [l]) = Some (length cols).
Proof.
  induction cols as [|c cols IH]; cbn [index_of app length]; intros H.
  - now rewrite cell_eqb_refl.
  - destruct (cell_eqb l c); [discriminate|].
    destruct (index_of l cols); [discriminate|]. now rewrite IH.
Qed.

Lemma set_col_new (l : cell) (vs : list cell) (df : frame) :
  rectangular df ->
  index_of l (columns df) = None ->
  length vs = length (rows df) ->
  get_col l (set_col l vs df) = Ok vs
  /\ rectangular (set_col l vs df).
Proof.
  unfold rectangular. intros Hrect Hidx Hlen.
  unfold get_col, set_col. rewrite Hidx. cbn [columns rows].
  rewrite (index_of_app_new l _ Hidx). split.
  - f_equal. rewrite map_map. revert vs Hlen.
    induction (rows df) as [|r rs IH]; intros [|v vs] Hlen;
      try discriminate; cbn [combine map fst snd]; [reflexivity|].
    inversion Hrect as [|x xs Hr Hrs]; subst.
    rewrite app_nth2 by lia. rewrite Hr, Nat.sub_diag. cbn [nth].
    f_equal. apply IH; [assumption|]. simpl in Hlen. lia.
  - rewrite Forall_forall in *. intros r Hr.
    apply in_map_iff in Hr. destruct Hr as [[r' v] [<- Hin]].
    apply in_combine_l in Hin. cbn [fst snd].
    rewrite !length_app, (Hrect r' Hin). reflexivity.
Qed.

Lemma index_of_bound (l : cell) (cols : list cell) (i : nat) :
  index_of l cols = Some i -> i < length cols.
Proof.
  revert i. induction cols as [|c cols IH]; cbn [index_of]; intros i H;
    [discriminate|].
  destruct (cell_eqb l c).
  - injection H as <-. simpl. lia.
  - destruct (index_of l cols) as [j|]; [|discriminate].
    injection H as <-. specialize (IH j eq_refl). simpl. lia.
Qed.

Lemma set_col_present_rectangular (l : cell) (vs : list cell) (df : frame)
  (i : nat) :
  rectangular df ->
  index_of l (columns df) = Some i ->
  rectangular (set_col l vs df).
Proof.
  unfold rectangular. intros Hrect Hidx. unfold set_col. rewrite Hidx.
  cbn [columns rows]. rewrite Forall_forall in *. intros r Hr.
  apply in_map_iff in Hr. destruct Hr as [[r' v] [<- Hin]].
  apply in_combine_l in Hin. cbn [fst snd].
  apply length_write_row. now apply Hrect.
Qed.

(** X12.  In the table the normaliser returns for a sheet, the [client]
    column holds the name of the sheet in every row, and every row is as
    long as the list of column names. *)
Theorem client_column_is_sheet_name (sheet : pystr) (df t : frame) :
  rectangular df ->
  normalize_sheet sheet df = Ok t ->
  get_col client t = Ok (repeat (CStr sheet) (length (rows t)))
  /\ rectangular t.
Proof.
  intros Hrect Hnorm. unfold normalize_sheet in Hnorm.
  destruct (strip_and_promote df) as [t0|e] eqn:Hstrip; [|discriminate].
  cbn [bind] in Hnorm. apply Ok_inj in Hnorm. subst t.
  pose proof (strip_and_promote_rectangular df t0 Hrect Hstrip) as Hr0.
  assert (Hr1 : rectangular (dropna_all t0)).
  { unfold rectangular, dropna_all in *. cbn [rows columns].
    rewrite Forall_forall in *. intros r Hr. apply filter_In in Hr.
    now apply Hr0. }
  unfold add_client. fold client.
  set (t1 := dropna_all t0) in *.
  assert (Hlen : length (repeat (CStr sheet) (length (rows t1)))
                 = length (rows t1)) by apply repeat_length.
  rewrite (length_rows_set_col client _ t1 Hlen).
  destruct (index_of client (columns t1)) as [i|] eqn:Hi.
  - split.
    + now apply (get_col_set_col_same client _ t1 i).
    + now apply (set_col_present_rectangular client _ t1 i).
  - now apply set_col_new.
Qed.

Lemma client_column_is_sheet_name_witness :
  rectangular raw_sheet
  /\ normalize_sheet (py "A") raw_sheet
     = Ok {| columns := [txt "Job No"; txt "Quantity/MT"; client];
             rows := [ [txt "3.07.1"; txt "1,000"; txt "A"];
                       [missing; txt "500"; txt "A"] ] |}
  /\ get_col client
       {| columns := [txt "Job No"; txt "Quantity/MT"; client];
          rows := [ [txt "3.07.1"; txt "1,000"; txt "A"];
                    [missing; txt "500"; txt "A"] ] |}
     = Ok (repeat (txt "A") 2).
Proof.
  assert (H : rectangular raw_sheet) by (repeat constructor).
  split; [exact H|]. split; [reflexivity|].
  exact (proj1 (client_column_is_sheet_name (py "A") raw_sheet _ H eq_refl)).
Defined.

(** ** The invoice total of one currency *)

Lemma filter_swap {A} (p q : A -> bool) (l : list A) :
  filter p (filter q l) = filter q (filter p l).
Proof.
  induction l as [|a l IH]; simpl; [reflexivity|].
  destruct (q a) eqn:Hq; destruct (p a) eqn:Hp; simpl;
    rewrite ?Hq, ?Hp, IH; reflexivity.
Qed.

Lemma filter_none {A} (p : A -> bool) (l : list A) :
  (forall a, In a l -> p a = false) -> filter p l = [].
Proof.
  induction l as [|a l IH]; simpl; intros H; [reflexivity|].
  rewrite (H a (or_introl eq_refl)). apply IH.
  intros b Hb. apply H. now right.
Qed.

Lemma perm_filter {A} (p : A -> bool) (l l' : list A) :
  Permutation l l' -> Permutation (filter p l) (filter p l').
Proof.
  induction 1 as [|a l l' _ IH|a b l|l l' l'' _ IH1 _ IH2]; simpl.
  - constructor.
  - destruct (p a); [now constructor|assumption].
  - destruct (p a); destruct (p b); try reflexivity. apply perm_swap.
  - etransitivity; eassumption.
Qed.

Lemma In_uniq_sub {A} (eqb : A -> A -> bool) (x : A) (l : list A) :
  In x (uniq eqb l) -> In x l.
Proof.
  induction l as [|a l IH]; simpl; [tauto|].
  intros [->|H]; [now left|]. apply filter_In in H. right. now apply IH.
Qed.

(** Among distinct keys, the keys that pass a test met by one text key
    only are that key, once. *)
Lemma filter_uniq_single (p : cell -> bool) (s0 : pystr) (l : list cell) :
  (forall k, In k l -> (p k = true <-> k = CStr s0)) ->
  In (CStr s0) l ->
  filter p (uniq cell_eqb l) = [CStr s0].
Proof.
  induction l as [|a l IH]; intros Hp Hin; [destruct Hin|].
  cbn [uniq filter].
  assert (Hp' : forall k, In k l -> (p k = true <-> k = CStr s0))
    by (intros k Hk; apply Hp; now right).
  destruct (p a) eqn:Ha.
  - apply (Hp a (or_introl eq_refl)) in Ha. subst a. f_equal.
    apply filter_none. intros y Hy. apply filter_In in Hy.
    destruct Hy as [Hy Hne]. apply negb_true_iff in Hne.
    destruct (p y) eqn:Epy; [|reflexivity].
    apply (Hp' y (In_uniq_sub _ _ _ Hy)) in Epy. subst y.
    rewrite cell_eqb_refl in Hne. discriminate.
  - assert (Hne : a <> CStr s0).
    { intros ->. rewrite (proj2 (Hp _ (or_introl eq_refl)) eq_refl) in Ha.
      discriminate. }
    destruct Hin as [->|Hin]; [congruence|].
    rewrite filter_swap, (IH Hp' Hin). cbn [filter].
    destruct (cell_eqb a (CStr s0)) eqn:E; [|reflexivity].
    apply cell_eqb_str_r in E. congruence.
Qed.

Lemma In_combine_cells (cu : list cell) (i : list float) (k : cell) :
  length i = length cu -> In k cu -> exists x, In (k, x) (combine cu i).
Proof.
  revert i. induction cu as [|c cu IH]; intros [|x i] Hlen Hin;
    simpl in *; try discriminate; try tauto.
  destruct Hin as [->|Hin].
  - exists x. now left.
  - destruct (IH i) as [y Hy]; [lia|assumption|]. exists y. now right.
Qed.

Lemma length_numeric_col (l : cell) (df : frame) (q : list float) :
  numeric_col l df = Ok q -> length q = length (rows df).
Proof.
  unfold numeric_col. destruct (get_col l df) as [c|] eqn:E; [|discriminate].
  simpl. intros H. apply mapM_length in H. apply length_get_col in E. lia.
Qed.

Lemma present_keys_sub (recs : list (cell * float)) (k : cell) :
  In k (sort cell_leb
          (uniq cell_eqb
             (map fst (filter (fun r => negb (isna (fst r))) recs)))) ->
  In k (map fst recs) /\ isna k = false.
Proof.
  intros H. apply In_sort, In_uniq_sub, in_map_iff in H.
  destruct H as [r [<- Hr]]. apply filter_In in Hr.
  destruct Hr as [Hr Hna]. split; [now apply in_map|].
  now apply negb_true_iff.
Qed.

(** X13.  The metric card of a currency code that is the trimmed
    upper-case form of no currency in the table shows the default 0. *)
Theorem absent_currency_shows_zero {U : UnicodeData} (df : frame)
  (cu : list cell) (i : list float) (code : pystr) :
  get_col currency df = Ok cu ->
  numeric_col invoice_amount df = Ok i ->
  (forall k, In k cu -> cell_eqb (CStr code) (normalize_code k) = false) ->
  invoice_metric code df = Ok zero.
Proof.
  intros Hcu Hi Hno. unfold invoice_metric, inv_by_cur.
  rewrite Hcu, Hi. cbn [bind]. unfold series_get, sum_by_currency.
  cbv zeta. rewrite map_map. cbn [fst snd].
  rewrite filter_none; [reflexivity|].
  intros e He. apply in_map_iff in He. destruct He as [k [<- Hk]].
  cbn [fst]. apply Hno. apply present_keys_sub in Hk.
  destruct Hk as [Hk _]. apply in_map_iff in Hk.
  destruct Hk as [[k' x] [<- Hin]]. now apply in_combine_l in Hin.
Qed.

Lemma absent_currency_shows_zero_witness :
  get_col currency shipments_typed = Ok [txt "USD"; txt "USD"; missing]
  /\ @invoice_metric ascii_tables (py "EGP") shipments_typed = Ok zero.
Proof.
  split; [reflexivity|].
  refine (@absent_currency_shows_zero ascii_tables shipments_typed
            [txt "USD"; txt "USD"; missing] [one; zero; two] (py "EGP")
            eq_refl eq_refl _).
  intros k [<-|[<-|[<-|[]]]]; reflexivity.
Defined.

(** X14.  When the table writes a currency in one way only, that is, when
    one text alone among its currencies has the code as its trimmed
    upper-case form, the metric card of the code shows the total of the
    invoice amounts of the rows with that currency. *)
Theorem single_spelling_total {U : UnicodeData} (df : frame)
  (cu : list cell) (i : list float) (code s0 : pystr) :
  get_col currency df = Ok cu ->
  numeric_col invoice_amount df = Ok i ->
  In (CStr s0) cu ->
  upper (strip s0) = code ->
  (forall s, In (CStr s) cu -> upper (strip s) = code -> s = s0) ->
  invoice_metric code df
  = Ok (group_sum
          (map snd (filter (fun r => cell_eqb (CStr s0) (fst r))
                           (combine cu i)))).
Proof.
  intros Hcu Hi Hin Hcode Honly.
  assert (Hlen : length i = length cu).
  { apply length_numeric_col in Hi. apply length_get_col in Hcu. lia. }
  unfold invoice_metric, inv_by_cur. rewrite Hcu, Hi. cbn [bind].
  unfold series_get, sum_by_currency. cbv zeta.
  rewrite map_map. cbn [fst snd].
  set (present := filter (fun r : cell * float => negb (isna (fst r)))
                         (combine cu i)).
  set (p := fun k : cell => cell_eqb (CStr code) (normalize_code k)).
  rewrite (filter_map_comm
             (fun k : cell =>
                (normalize_code k,
                 group_sum (map snd (filter (fun r : cell * float =>
                                               cell_eqb k (fst r))
                                            present))))
             (fun e : cell * float => cell_eqb (CStr code) (fst e))).
  cbn [fst]. fold p.
  assert (Hp : forall k, In k (map fst present) ->
                 (p k = true <-> k = CStr s0)).
  { intros k Hk. apply in_map_iff in Hk. destruct Hk as [[k' x] [<- Hr]].
    apply filter_In in Hr. destruct Hr as [Hr _].
    apply in_combine_l in Hr. cbn [fst]. unfold p. split.
    - intros E. apply cell_eqb_str in E.
      destruct k' as [s|y]; cbn [normalize_code] in E; [|discriminate].
      injection E as E. f_equal. now apply Honly.
    - intros ->. cbn [normalize_code]. rewrite Hcode.
      apply cell_eqb_refl. }
  assert (Hin' : In (CStr s0) (map fst present)).
  { destruct (In_combine_cells cu i (CStr s0) Hlen Hin) as [x Hx].
    apply in_map_iff. exists (CStr s0, x). split; [reflexivity|].
    apply filter_In. split; [assumption|reflexivity]. }
  pose proof (filter_uniq_single p s0 (map fst present) Hp Hin') as Hone.
  pose proof (perm_filter p _ _
                (sort_perm cell_leb (uniq cell_eqb (map fst present))))
    as Hperm.
  rewrite Hone in Hperm. symmetry in Hperm.
  apply Permutation_length_1_inv in Hperm. rewrite Hperm.
  cbn [map metric_value snd]. do 3 f_equal.
  unfold present.
  apply (filter_filter_implied
           (fun r : cell * float => cell_eqb (CStr s0) (fst r))
           (fun r : cell * float => negb (isna (fst r)))).
  intros r E. apply cell_eqb_str in E. now rewrite E.
Qed.

Lemma single_spelling_total_witness :
  get_col currency shipments_typed = Ok [txt "USD"; txt "USD"; missing]
  /\ @invoice_metric ascii_tables (py "USD") shipments_typed
     = Ok (group_sum [one; zero]).
Proof.
  split; [reflexivity|].
  refine (@single_spelling_total ascii_tables shipments_typed
            [txt "USD"; txt "USD"; missing] [one; zero; two]
            (py "USD") (py "USD") eq_refl eq_refl _ eq_refl _).
  - left. reflexivity.
  - intros s [E|[E|[E|[]]]] _; try discriminate E;
      injection E as <-; reflexivity.
Defined.

(** ** The breakdown by commodity *)

Lemma select_by_map {A B} (f : A -> B) (mask : list bool) (l : list A) :
  select_by mask (map f l) = map f (select_by mask l).
Proof.
  revert l. induction mask as [|b mask IH]; intros [|a l]; simpl;
    try reflexivity.
  destruct b; simpl; now rewrite IH.
Qed.

Lemma In_select_by {A B} (p : A -> bool) (xs : list A) (ys : list B) (y : B) :
  In y (select_by (map p xs) ys)
  <-> exists x, In (x, y) (combine xs ys) /\ p x = true.
Proof.
  revert ys. induction xs as [|x xs IH]; intros [|y0 ys]; simpl.
  - split; [tauto|]. intros [x [[] _]].
  - split; [tauto|]. intros [x [[] _]].
  - split; [tauto|]. intros [x0 [[] _]].
  - destruct (p x) eqn:Hp; simpl; rewrite IH; split.
    + intros [<-|[x0 [Hin Hx0]]]; [exists x; auto|exists x0; auto].
    + intros [x0 [[E|Hin] Hx0]]; [injection E as <- <-; now left|].
      right. exists x0. auto.
    + intros [x0 [Hin Hx0]]. exists x0. auto.
    + intros [x0 [[E|Hin] Hx0]]; [injection E as <- <-; congruence|].
      exists x0. auto.
Qed.

Lemma mapM_select_by {A B} (f : A -> result B) (mask : list bool)
  (l : list A) (ys : list B) :
  mapM f l = Ok ys -> mapM f (select_by mask l) = Ok (select_by mask ys).
Proof.
  revert l ys. induction mask as [|b mask IH]; intros l ys H.
  - now destruct l; destruct ys.
  - apply mapM_Ok_Forall2 in H. destruct H as [|a y l ys Hay Hrest].
    + reflexivity.
    + apply mapM_Ok_Forall2 in Hrest. specialize (IH l ys Hrest).
      destruct b; simpl; [rewrite Hay, IH|]; auto.
Qed.

Lemma get_col_client_df (c l : cell) (df sel : frame) (cl col : list cell) :
  get_col client df = Ok cl ->
  client_df c df = Ok sel ->
  get_col l df = Ok col ->
  get_col l sel = Ok (select_by (map (fun v => cell_equals v c) cl) col).
Proof.
  intros Hcl Hsel Hcol. unfold client_df in Hsel. rewrite Hcl in Hsel.
  cbn [bind] in Hsel. apply Ok_inj in Hsel. subst sel.
  unfold get_col in *. cbn [columns rows].
  destruct (index_of l (columns df)) as [j|]; [|discriminate].
  apply Ok_inj in Hcol. subst col. now rewrite select_by_map.
Qed.

Lemma totals_nil (recs : list (cell * float)) :
  sum_by_currency recs = []
  <-> forall e, In e recs -> isna (fst e) = true.
Proof.
  unfold sum_by_currency. cbv zeta.
  set (present := filter (fun r : cell * float => negb (isna (fst r))) recs).
  split.
  - intros H. apply map_eq_nil in H.
    assert (Hu : uniq cell_eqb (map fst present) = []).
    { apply Permutation_nil. rewrite <- H. apply sort_perm. }
    assert (Hp : present = []).
    { destruct present as [|r rs]; [reflexivity|discriminate Hu]. }
    intros e He. destruct (isna (fst e)) eqn:E; [reflexivity|].
    assert (In e present)
      by (apply filter_In; split; [assumption|now rewrite E]).
    rewrite Hp in *. contradiction.
  - intros H. replace present with (@nil (cell * float)); [reflexivity|].
    symmetry. apply filter_none. intros e He. now rewrite (H e He).
Qed.

Lemma In_totals (recs : list (cell * float)) (e : cell * float) :
  In e (sum_by_currency recs) ->
  isna (fst e) = false /\ In (fst e) (map fst recs).
Proof.
  unfold sum_by_currency. cbv zeta. intros H.
  apply in_map_iff in H. destruct H as [k [<- Hk]]. cbn [fst].
  apply present_keys_sub in Hk. tauto.
Qed.

Section BreakdownProperties.
Variable sort_values : list (cell * float) -> list (cell * float).
Hypothesis sort_values_perm : forall l, Permutation (sort_values l) l.

Lemma breakdown_spec (c : cell) (df : frame) (cl co : list cell)
  (q : list float) :
  get_col client df = Ok cl ->
  get_col commodity df = Ok co ->
  numeric_col quantity_mt df = Ok q ->
  exists s,
    breakdown sort_values c df = Ok s
    /\ (s = [] <->
        forall t, In t (combine cl co) -> cell_equals (fst t) c = true ->
                  isna (snd t) = true)
    /\ forall e, In e s ->
         isna (fst e) = false
         /\ exists t, In t (combine cl co)
                      /\ cell_equals (fst t) c = true /\ snd t = fst e.
Proof.
  intros Hcl Hco Hq.
  set (mask := map (fun v => cell_equals v c) cl).
  assert (Hsel : client_df c df
                 = Ok {| columns := columns df;
                         rows := select_by mask (rows df) |}).
  { unfold client_df. rewrite Hcl. reflexivity. }
  pose proof (get_col_client_df c commodity df _ cl co Hcl Hsel Hco) as Hco'.
  fold mask in Hco'.
  assert (Hq' : numeric_col quantity_mt
                  {| columns := columns df;
                     rows := select_by mask (rows df) |}
                = Ok (select_by mask q)).
  { unfold numeric_col in *.
    destruct (get_col quantity_mt df) as [qc|] eqn:Hqc; [|discriminate].
    rewrite (get_col_client_df c quantity_mt df _ cl qc Hcl Hsel Hqc).
    cbn [bind] in *. now apply mapM_select_by. }
  set (tot := sum_by_currency
                (combine (select_by mask co) (select_by mask q))).
  exists (sort_values tot).
  split.
  { unfold breakdown, commodity_totals. rewrite Hsel. cbn [bind].
    rewrite Hco', Hq'. reflexivity. }
  assert (Hlen : length (select_by mask q) = length (select_by mask co)).
  { apply length_numeric_col in Hq. apply length_get_col in Hco.
    apply length_get_col in Hcl.
    apply length_select_by; unfold mask; rewrite length_map; lia. }
  assert (Hkeys : forall k, In k (select_by mask co) <->
                    exists t, In t (combine cl co)
                              /\ cell_equals (fst t) c = true /\ snd t = k).
  { intros k. unfold mask. rewrite In_select_by. split.
    - intros [x [Hin Hx]]. exists (x, k). auto.
    - intros [[x k'] [Hin [Hx Hk]]]. cbn [fst snd] in *. subst k'.
      exists x. auto. }
  split.
  - split.
    + intros Hs t Ht Hc.
      assert (Htot : tot = []).
      { apply Permutation_nil. rewrite <- Hs. apply sort_values_perm. }
      destruct (In_combine_cells (select_by mask co) (select_by mask q)
                  (snd t) Hlen) as [x Hx].
      { apply Hkeys. exists t. auto. }
      exact (proj1 (totals_nil _) Htot _ Hx).
    + intros Hall.
      assert (Htot : tot = []).
      { apply totals_nil. intros e He. destruct e as [k x].
        apply in_combine_l in He. apply Hkeys in He.
        destruct He as [t [Ht [Hc Hk]]]. cbn [fst]. rewrite <- Hk.
        now apply Hall. }
      apply Permutation_nil. rewrite <- Htot. symmetry.
      apply sort_values_perm.
  - intros e He.
    assert (Hin : In e tot)
      by (eapply Permutation_in; [apply sort_values_perm|exact He]).
    apply In_totals in Hin. destruct Hin as [Hna Hk].
    split; [exact Hna|]. apply Hkeys.
    apply in_map_iff in Hk. destruct Hk as [[k x] [<- Hkx]].
    now apply in_combine_l in Hkx.
Qed.

End BreakdownProperties.

(** X15.  For any sorting routine that rearranges its argument, the
    breakdown of a client is computed whenever the table has the client,
    commodity and quantity columns; it is empty, and the chart loops report
    no data, exactly when every row of the client lacks a commodity; and
    each of its entries is a commodity, not missing, of a row of the
    client. *)
Theorem breakdown_by_commodity
  (sort_values : list (cell * float) -> list (cell * float))
  (c : cell) (df : frame) (cl co : list cell) (q : list float) :
  (forall l, Permutation (sort_values l) l) ->
  get_col client df = Ok cl ->
  get_col commodity df = Ok co ->
  numeric_col quantity_mt df = Ok q ->
  exists s,
    breakdown sort_values c df = Ok s
    /\ (s = [] <->
        forall t, In t (combine cl co) -> cell_equals (fst t) c = true ->
                  isna (snd t) = true)
    /\ forall e, In e s ->
         isna (fst e) = false
         /\ exists t, In t (combine cl co)
                      /\ cell_equals (fst t) c = true /\ snd t = fst e.
Proof. intros H. now apply breakdown_spec. Qed.

Lemma sort_desc_perm (l : list (cell * float)) :
  Permutation (sort_desc l) l.
Proof. apply sort_perm. Qed.

Lemma breakdown_by_commodity_witness :
  get_col client cargo = Ok [txt "A"; txt "B"; txt "A"]
  /\ get_col commodity cargo = Ok [txt "wheat"; missing; txt "corn"]
  /\ breakdown sort_desc (txt "B") cargo = Ok []
  /\ exists s, breakdown sort_desc (txt "A") cargo = Ok s
               /\ forall e, In e s -> isna (fst e) = false.
Proof.
  split; [reflexivity|]. split; [reflexivity|]. split; [reflexivity|].
  destruct (breakdown_by_commodity sort_desc (txt "A") cargo
              [txt "A"; txt "B"; txt "A"] [txt "wheat"; missing; txt "corn"]
              [one; two; two] sort_desc_perm eq_refl eq_refl eq_refl)
    as [s [Hs [_ He]]].
  exists s. split; [exact Hs|]. intros e Hin. exact (proj1 (He e Hin)).
Defined.

(** ** One summary row per pair of keys *)

Lemma feqb_canon (x y : float) :
  feqb x y || (is_nan x && is_nan y) = true
  <-> canon (CNum x) = canon (CNum y).
Proof.
  unfold feqb, SFeqb, SFcompare.
  destruct x as [s|s| |s m e]; destruct y as [s'|s'| |s' m' e'];
    cbn [canon is_nan andb orb];
    try (destruct s); try (destruct s');
    try change (Pos.compare_cont Eq m m') with (Pos.compare m m');
    try (destruct (Z.compare_spec e e') as [->|He|He];
         destruct (Pos.compare_spec m m') as [->|Hm|Hm]);
    cbn [CompOpp orb];
    split; intros H; try reflexivity; try discriminate H;
    injection H; intros; subst; lia.
Qed.

Lemma cell_eqb_canon (a b : cell) :
  cell_eqb a b = true <-> canon a = canon b.
Proof.
  destruct a as [s|x]; destruct b as [t|y].
  - cbn [cell_eqb canon]. rewrite pystr_eqb_spec. split; congruence.
  - cbn [cell_eqb]. split; [discriminate|].
    destruct y; cbn [canon]; discriminate.
  - cbn [cell_eqb]. split; [discriminate|].
    destruct x; cbn [canon]; discriminate.
  - cbn [cell_eqb]. apply feqb_canon.
Qed.

Lemma isna_canon (a b : cell) :
  canon a = canon b -> isna a = isna b.
Proof.
  destruct a as [s|x]; destruct b as [t|y]; cbn [canon];
    try (destruct x); try (destruct y); intros H;
    try discriminate H; try reflexivity; now inversion H.
Qed.

Lemma key2_eqb_canon (a b : key2) :
  key2_eqb a b = true
  <-> canon (fst a) = canon (fst b) /\ canon (snd a) = canon (snd b).
Proof.
  unfold key2_eqb. now rewrite andb_true_iff, !cell_eqb_canon.
Qed.

Lemma key2_isna_eqb (a b : key2) :
  key2_eqb a b = true -> key2_isna a = key2_isna b.
Proof.
  intros H. apply key2_eqb_canon in H. destruct H as [H1 H2].
  unfold key2_isna. now rewrite (isna_canon _ _ H1), (isna_canon _ _ H2).
Qed.

Section Distinct.
Context {A B : Type} (eqb : A -> A -> bool) (c : A -> B).
Hypothesis eqb_canon : forall a b, eqb a b = true <-> c a = c b.

Lemma eqb_false_canon (a b : A) : eqb a b = false <-> c a <> c b.
Proof.
  destruct (eqb a b) eqn:E.
  - apply eqb_canon in E. split; [discriminate|congruence].
  - split; [|reflexivity]. intros _ H. apply eqb_canon in H. congruence.
Qed.

(** Among the distinct elements of a list, one and only one is equal to
    an element of the list. *)
Lemma count_uniq (k : A) (l : list A) :
  length (filter (eqb k) (uniq eqb l))
  = if existsb (eqb k) l then 1 else 0.
Proof.
  induction l as [|a l IH]; [reflexivity|].
  cbn [uniq filter existsb]. destruct (eqb k a) eqn:Eka.
  - cbn [orb length]. f_equal.
    rewrite filter_none; [reflexivity|].
    intros y Hy. apply filter_In in Hy. destruct Hy as [_ Hay].
    apply negb_true_iff, eqb_false_canon in Hay.
    apply eqb_false_canon. apply eqb_canon in Eka. congruence.
  - cbn [orb]. rewrite <- IH, filter_swap. f_equal.
    apply filter_all. intros y Hy. apply filter_In in Hy.
    destruct Hy as [_ Hky]. apply negb_true_iff, eqb_false_canon.
    apply eqb_canon in Hky. apply eqb_false_canon in Eka. congruence.
Qed.

End Distinct.

Lemma existsb_map {A B} (p : B -> bool) (f : A -> B) (l : list A) :
  existsb p (map f l) = existsb (fun a => p (f a)) l.
Proof.
  induction l as [|a l IH]; simpl; [reflexivity|]. now rewrite IH.
Qed.

Lemma existsb_filter {A} (p q : A -> bool) (l : list A) :
  existsb p (filter q l) = existsb (fun a => q a && p a) l.
Proof.
  induction l as [|a l IH]; simpl; [reflexivity|].
  destruct (q a); simpl; now rewrite IH.
Qed.

(** X16.  The grouping by client and currency gives one row, and only
    one, for each pair of keys that some row of the table has in full, and
    none for any other pair; the keys of a row are not missing and its
    totals are the sums over the rows of the table with these keys. *)
Theorem one_summary_row_per_key (recs : list record) (k : key2) :
  length (filter (fun r => key2_eqb k (row_key r)) (grouped recs))
  = (if existsb (in_group k) recs then 1 else 0)
  /\ forall r, In r (grouped recs) ->
       key2_isna (row_key r) = false
       /\ s_quantity r
          = group_sum (map (fun rec => fst (snd rec))
                           (filter (fun rec => key2_eqb (row_key r) (fst rec))
                                   recs))
       /\ s_invoice r
          = group_sum (map (fun rec => snd (snd rec))
                           (filter (fun rec => key2_eqb (row_key r) (fst rec))
                                   recs)).
Proof.
  unfold grouped. cbv zeta.
  set (present := filter (fun r : record => negb (key2_isna (fst r))) recs).
  set (keys := sort key2_leb (uniq key2_eqb (map fst present))).
  split.
  - rewrite (filter_map_comm _ (fun r => key2_eqb k (row_key r)) keys).
    rewrite length_map. cbn [row_key s_client s_currency].
    assert (Hk : forall x : key2,
               key2_eqb k (fst x, snd x) = key2_eqb k x)
      by (intros [x1 x2]; reflexivity).
    rewrite (filter_ext _ _ Hk). unfold keys.
    rewrite (Permutation_length
               (perm_filter (key2_eqb k) _ _
                  (sort_perm key2_leb (uniq key2_eqb (map fst present))))).
    rewrite (count_uniq key2_eqb
               (fun x : key2 => (canon (fst x), canon (snd x)))).
    + unfold present. rewrite existsb_map, existsb_filter. reflexivity.
    + intros a b. rewrite key2_eqb_canon. split.
      * intros [-> ->]. reflexivity.
      * intros H. now inversion H.
  - intros r Hr. apply in_map_iff in Hr. destruct Hr as [x [<- Hx]].
    unfold row_key. cbn [s_client s_currency s_quantity s_invoice].
    assert (Hkey : (fst x, snd x) = x) by (now destruct x).
    rewrite Hkey.
    assert (Hna : key2_isna x = false).
    { apply In_sort, In_uniq_sub, in_map_iff in Hx.
      destruct Hx as [rec [<- Hrec]]. apply filter_In in Hrec.
      now apply negb_true_iff. }
    assert (Hgrp : filter (fun rec : key2 * (float * float) =>
                             key2_eqb x (fst rec))
                     (filter (fun r : key2 * (float * float) =>
                                negb (key2_isna (fst r))) recs)
                   = filter (fun rec : key2 * (float * float) =>
                               key2_eqb x (fst rec)) recs).
    { apply filter_filter_implied.
      intros rec E. apply key2_isna_eqb in E. now rewrite <- E, Hna. }
    split; [exact Hna|].
    unfold record in *. fold present. unfold present. now rewrite Hgrp.
Qed.

(** ** The second [dropna] *)

Lemma present_cell_in_row (i : nat) (r : list cell) :
  isna (nth i r missing) = false ->
  existsb (fun c => negb (isna c)) r = true.
Proof.
  intros H. apply existsb_exists. exists (nth i r missing).
  split; [|now rewrite H].
  destruct (Nat.lt_ge_cases i (length r)) as [Hi|Hi]; [now apply nth_In|].
  rewrite nth_overflow in H by assumption. discriminate H.
Qed.

(** X17.  When every sheet table has a client in every row, the [dropna]
    that follows [pd.concat] drops no row of the combined table. *)
Theorem combined_dropna_drops_nothing (frames : list frame) (c : frame) :
  (forall f, In f frames ->
     exists cl, get_col client f = Ok cl
                /\ Forall (fun v => isna v = false) cl) ->
  concat frames = Ok c ->
  dropna_all c = c.
Proof.
  intros Hcl Hc.
  destruct (concat_spec frames c (py "client") Hc) as [_ [Hhas Hget]].
  fold client in Hhas, Hget.
  assert (Hne : frames <> []) by (intros ->; discriminate Hc).
  assert (Hhas' : has_col client c = true).
  { rewrite Hhas. destruct frames as [|f fs]; [congruence|].
    destruct (Hcl f (or_introl eq_refl)) as [cl [Hf _]].
    cbn [existsb]. now rewrite (get_col_has_col _ _ _ Hf). }
  specialize (Hget Hhas').
  assert (Hall : Forall (fun v => isna v = false)
                        (flat_map (column_or_missing client) frames)).
  { apply Forall_flat_map, Forall_forall. intros f Hf.
    destruct (Hcl f Hf) as [cl [Hgf Hpres]].
    unfold column_or_missing. now rewrite Hgf. }
  unfold get_col in Hget.
  destruct (index_of client (columns c)) as [i|]; [|discriminate].
  apply Ok_inj in Hget. rewrite <- Hget in Hall.
  destruct c as [cols rs]. unfold dropna_all. cbn [columns rows] in *.
  f_equal. apply filter_all. intros r Hr.
  apply (present_cell_in_row i).
  rewrite Forall_forall in Hall. apply Hall.
  apply in_map_iff. exists r. auto.
Qed.

Lemma combined_dropna_drops_nothing_witness :
  (forall f, In f [sheet_a; sheet_b] ->
     exists cl, get_col client f = Ok cl
                /\ Forall (fun v => isna v = false) cl)
  /\ concat [sheet_a; sheet_b]
     = Ok {| columns := columns sheet_a;
             rows := rows sheet_a ++ rows sheet_b |}
  /\ dropna_all {| columns := columns sheet_a;
                   rows := rows sheet_a ++ rows sheet_b |}
     = {| columns := columns sheet_a;
          rows := rows sheet_a ++ rows sheet_b |}.
Proof.
  assert (H : forall f, In f [sheet_a; sheet_b] ->
                exists cl, get_col client f = Ok cl
                           /\ Forall (fun v => isna v = false) cl).
  { intros f [<-|[<-|[]]]; eexists; (split; [reflexivity|]);
      repeat constructor. }
  split; [exact H|]. split; [reflexivity|].
  exact (combined_dropna_drops_nothing [sheet_a; sheet_b] _ H eq_refl).
Defined.

(** ** Cleaned names *)

Lemma space_in_collapse (s : pystr) (d : N) :
  forall b, In d (collapse_from b s) -> is_space d = true -> d = 32%N.
Proof.
  induction s as [|c s IH]; intros b; simpl; [tauto|].
  destruct (is_space c) eqn:Hc; [destruct b|]; simpl; intros H Hd.
  - eapply IH; eassumption.
  - destruct H as [<-|H]; [reflexivity|]. eapply IH; eassumption.
  - destruct H as [<-|H]; [congruence|]. eapply IH; eassumption.
Qed.

(** X18.  A cleaned column name neither starts nor ends with whitespace,
    and the only whitespace character it holds is the space. *)
Theorem cleaned_name_shape {U : UnicodeData} {L : UnicodeLaws U}
  (s : pystr) :
  head_ok (clean_name s) = true
  /\ head_ok (rev (clean_name s)) = true
  /\ forall d, In d (clean_name s) -> is_space d = true -> d = 32%N.
Proof.
  pose proof (trimmed_collapse _ (trimmed_lower _ (trimmed_strip s)))
    as [H1 H2].
  split; [exact H1|]. split; [exact H2|].
  intros d. apply space_in_collapse.
Qed.

Lemma cleaned_name_shape_witness :
  @clean_name ascii_tables
    (9%N :: py " Job" ++ [160%N; 9%N] ++ py "No  ")
  = py "job no"
  /\ head_ok (@clean_name ascii_tables
                (9%N :: py " Job" ++ [160%N; 9%N] ++ py "No  ")) = true.
Proof.
  split; [reflexivity|].
  exact (proj1 (@cleaned_name_shape ascii_tables ascii_tables_laws
                  (9%N :: py " Job" ++ [160%N; 9%N] ++ py "No  "))).
Defined.

(** ** One chart or one warning per client *)

Lemma mapM_tagged {A B} (f : A -> result B) (tag : B -> A) (l : list A) :
  (forall a, exists b, f a = Ok b /\ tag b = a) ->
  exists bs, mapM f l = Ok bs /\ map tag bs = l.
Proof.
  intros H. induction l as [|a l [bs [Hbs Htag]]].
  - exists []. split; reflexivity.
  - destruct (H a) as [b [Hb Hta]]. exists (b :: bs).
    cbn [mapM map]. rewrite Hb, Hbs, Hta, Htag. split; reflexivity.
Qed.

(** X19.  For any sorting routine that rearranges its argument, when the
    table has the client, commodity and quantity columns the chart loop
    computes the table of every client without raising and handles every
    client once, in the order in which the clients first appear in the
    table. *)
Theorem one_chart_per_client
  (sort_values : list (cell * float) -> list (cell * float))
  (df : frame) (cl co : list cell) (q : list float) :
  (forall l, Permutation (sort_values l) l) ->
  get_col client df = Ok cl ->
  get_col commodity df = Ok co ->
  numeric_col quantity_mt df = Ok q ->
  exists chs,
    charts sort_values df = Ok chs
    /\ map chart_client chs = uniq cell_eqb cl.
Proof.
  intros Hperm Hcl Hco Hq. unfold charts, clients. rewrite Hcl. cbn [bind].
  apply mapM_tagged. intros c.
  destruct (breakdown_spec sort_values Hperm c df cl co q Hcl Hco Hq)
    as [s [Hs _]].
  rewrite Hs. cbn [bind]. destruct s; eexists; split; reflexivity.
Qed.

Lemma one_chart_per_client_witness :
  get_col client cargo = Ok [txt "A"; txt "B"; txt "A"]
  /\ exists chs,
       charts sort_desc cargo = Ok chs
       /\ map chart_client chs = [txt "A"; txt "B"].
Proof.
  split; [reflexivity|].
  exact (one_chart_per_client sort_desc cargo
           [txt "A"; txt "B"; txt "A"] [txt "wheat"; missing; txt "corn"]
           [one; two; two] sort_desc_perm eq_refl eq_refl eq_refl).
Defined.

(** ** Rows without a currency *)

(** *** The sum of a column *)

Lemma fadd_neg_zero (x : float) : fadd neg_zero x = x.
Proof. destruct x as [s|s| |s m e]; try reflexivity. destruct s; reflexivity. Qed.

Lemma pairwise_sum_small (fuel : nat) (a : list float) :
  length a < 8 -> pairwise_sum fuel a = fold_left fadd a neg_zero.
Proof.
  intros H. apply Nat.ltb_lt in H.
  destruct fuel; cbn [pairwise_sum]; cbv zeta; rewrite H; reflexivity.
Qed.

(** The length of the array is fuel enough: more fuel gives the same sum. *)
Lemma pairwise_sum_fuel (f f' : nat) (a : list float) :
  length a <= f -> length a <= f' -> pairwise_sum f a = pairwise_sum f' a.
Proof.
  revert f' a. induction f as [|f IH]; intros f' a Hf Hf'.
  - destruct a; [|simpl in Hf; lia]. destruct f'; reflexivity.
  - destruct f' as [|f'].
    { destruct a; [|simpl in Hf'; lia]. reflexivity. }
    cbn [pairwise_sum]. cbv zeta.
    destruct (length a <? 8) eqn:E8; [reflexivity|].
    destruct (length a <=? 128) eqn:E128; [reflexivity|].
    apply Nat.leb_gt in E128.
    assert (H1 : length a / 2 < length a) by (apply Nat.div_lt; lia).
    assert (H2 : (length a / 2) mod 8 < 8) by (apply Nat.mod_upper_bound; lia).
    assert (H3 : 64 <= length a / 2)
      by (apply Nat.div_le_lower_bound; lia).
    f_equal; apply IH; rewrite ?length_firstn, ?length_skipn; lia.
Qed.

(** Fewer than 8 values are added from left to right. *)
Lemma np_sum_small (a : list float) :
  0 < length a < 8 -> np_sum a = fold_left fadd a neg_zero.
Proof.
  intros [H0 H8]. destruct a as [|x a]; [simpl in H0; lia|].
  unfold np_sum. rewrite fadd_neg_zero. now apply pairwise_sum_small.
Qed.

(** C10.  The rows of the combined table whose currency is missing play no
    part in the summary by client and currency nor in the invoice totals by
    currency: both are those of the table without these rows, and neither
    has a line for a missing currency.  The total quantity is the sum of
    the quantities of all the rows, these rows included; in a table of
    fewer than 8 rows it is their sum from left to right, a missing
    quantity counting as 0.0.  In the sample table the row of client B has
    no currency: the summary and the invoice totals have the line of
    client A only, with 1234.5 as quantity, and the total quantity is
    1234.5 + 0 + 500 = 1734.5. *)
Theorem rows_without_currency {U : UnicodeData} (df : frame)
  (recs : list record) :
  records df = Ok recs ->
  length recs = length (rows df)
  /\ summary df = Ok (summarize (filter has_currency recs))
  /\ inv_by_cur df
     = Ok (map (fun e => (normalize_code (fst e), snd e))
             (sum_by_currency
                (map (fun r => (snd (fst r), snd (snd r)))
                   (filter has_currency recs))))
  /\ total_qty df = Ok (nansum (map (fun r => fst (snd r)) recs))
  /\ (forall rs r, summary df = Ok rs -> In r rs ->
        isna (s_currency r) = false)
  /\ (0 < length recs < 8 ->
      total_qty df
      = Ok (fold_left fadd
              (map (fun r => if is_nan (fst (snd r)) then zero
                             else fst (snd r)) recs)
              neg_zero))
  /\ summary shipments_typed
     = Ok [ {| s_client := txt "A"; s_currency := txt "USD";
               s_quantity := of_binary 2469 (-1); s_invoice := one |} ]
  /\ @inv_by_cur ascii_tables shipments_typed = Ok [ (txt "USD", one) ]
  /\ total_qty shipments_typed = Ok (of_binary 3469 (-1)).
Proof.
  intros Hrecs.
  destruct (records_columns df recs Hrecs) as [Hcu [Hq [Hi Hlen]]].
  assert (Hsum : summary df = Ok (summarize (filter has_currency recs))).
  { unfold summary. rewrite Hrecs. simpl. unfold summarize.
    now rewrite grouped_has_currency. }
  assert (Htot : total_qty df = Ok (nansum (map (fun r => fst (snd r)) recs))).
  { unfold total_qty. rewrite Hq. reflexivity. }
  split; [exact Hlen|]. split; [exact Hsum|].
  split.
  { unfold inv_by_cur. rewrite Hcu, Hi. simpl. do 2 f_equal.
    rewrite <- map_pair_combine. symmetry.
    etransitivity; [|apply sum_by_currency_has_currency].
    f_equal. symmetry.
    exact (filter_map_comm
             (fun r : record => (snd (fst r), snd (snd r)))
             (fun e : cell * float => negb (isna (fst e))) recs). }
  split; [exact Htot|].
  split.
  { intros rs r Hrs Hin. rewrite Hsum in Hrs. apply Ok_inj in Hrs. subst rs.
    unfold summarize in Hin.
    apply filter_In in Hin as [Hin _]. apply filter_In in Hin as [Hin _].
    unfold grouped in Hin. cbv zeta in Hin.
    apply in_map_iff in Hin as [k [<- Hk]]. cbn [s_currency].
    apply In_sort, In_uniq_sub in Hk.
    apply in_map_iff in Hk as [rec [<- Hrec]].
    apply filter_In in Hrec as [_ Hrec].
    apply negb_true_iff in Hrec. unfold key2_isna in Hrec.
    now apply orb_false_iff in Hrec as [_ Hrec]. }
  split.
  { intros Hn. rewrite Htot. f_equal. unfold nansum.
    rewrite np_sum_small by (now rewrite !length_map).
    now rewrite map_map. }
  repeat split; reflexivity.
Qed.

Lemma rows_without_currency_witness :
  records shipments_typed
  = Ok [ ((txt "A", txt "USD"), (of_binary 2469 (-1), one));
         ((txt "A", txt "USD"), (nan, zero));
         ((txt "B", missing), (of_binary 500 0, two)) ]
  /\ summary shipments_typed
     = Ok (summarize
             [ ((txt "A", txt "USD"), (of_binary 2469 (-1), one));
               ((txt "A", txt "USD"), (nan, zero)) ])
  /\ total_qty shipments_typed
     = Ok (fold_left fadd [of_binary 2469 (-1); zero; of_binary 500 0]
             neg_zero)
  /\ fold_left fadd [of_binary 2469 (-1); zero; of_binary 500 0] neg_zero
     = of_binary 3469 (-1).
Proof.
  split; [reflexivity|].
  pose proof (@rows_without_currency ascii_tables shipments_typed _ eq_refl)
    as [_ [Hs [_ [_ [_ [Ht _]]]]]].
  split; [exact Hs|]. split; [|reflexivity].
  apply Ht. simpl. lia.
Defined.

(** ** A sheet that fails *)




